(** * phi-engine: the transform kernel, the analyzer and the constants table

    A shallow embedding of [core.py], [analyzer.py], [constants_db.py] and of
    the error guard of the three adapters, with the properties of the
    specification stated and proved over it.

    Numbers.  Python [int] is [Z].  Python [float] is modelled by exact
    numbers: by [R] in the transform layer, where [log] and [**] occur, and
    by [Q] in the validator, the decomposer and the adapters, where only
    field operations, comparisons and decimal rounding occur.  Binary64
    rounding, overflow and NaN are outside this model.

    Exceptions.  A Python function that can raise returns [result A]; the
    operations that raise in Python ([/] by zero, [math.log] outside its
    domain, [d[k]] on a missing key) are partial here as well. *)

From stdpp Require Import base list strings.
From Stdlib Require Import ZArith QArith Qround Qabs Qminmax Reals Lra Lia Psatz.
From Stdlib Require Import Sorting.Sorted.

Local Open Scope string_scope.
Local Open Scope list_scope.

(** ** Python exceptions as an error monad *)

Module Py.

Inductive exn : Type :=
  | ValueError (msg : string)
  | ZeroDivisionError
  | KeyError (key : string)
  | TypeError
  | AttributeError.

Inductive result (A : Type) : Type :=
  | Ok (a : A)
  | Raise (e : exn).

Arguments Ok {A} a.
Arguments Raise {A} e.

Definition bind {A B : Type} (m : result A) (k : A -> result B) : result B :=
  match m with
  | Ok a => k a
  | Raise e => Raise e
  end.

Definition raises {A : Type} (m : result A) : Prop :=
  match m with Ok _ => False | Raise _ => True end.

End Py.

Import Py.

Notation "'do' x <- m ; k" := (bind m (fun x => k))
  (at level 10, x name, m at level 100, k at level 200,
   format "'[v' 'do'  x  <-  m ; '/' k ']'").

(** ** core.py: constants and transforms *)

Module Core.

Local Open Scope R_scope.

(** [log(x)] of the [math] module: a domain error outside [x > 0]. *)
Definition py_log (x : R) : result R :=
  if Rle_dec x 0 then Raise (ValueError "math domain error") else Ok (ln x).

(** Float division [a / b]. *)
Definition py_div (a b : R) : result R :=
  if Req_dec_T b 0 then Raise ZeroDivisionError else Ok (a / b).

(** [PHI = (1 + sqrt(5)) / 2] *)
Definition PHI : R := (1 + sqrt 5) / 2.

(** [a ** d] for a positive base [a]; every power in [core.py] has base
    [PHI]. *)
Definition py_pow (a d : R) : R := Rpower a d.

(** [D(x)]: raises for [x <= 0], otherwise [-log(x) / log(PHI)]. *)
Definition D (x : R) : result R :=
  if Rle_dec x 0 then Raise (ValueError "D(x) requires x > 0")
  else
    do lx <- py_log x ;
    do lphi <- py_log PHI ;
    py_div (- lx) lphi.


(** [Theta(x) = 2 * pi * x] *)
Definition Theta (x : R) : R := 2 * PI * x.

(** [Energy(x) = (PHI ** D(x)) * Theta(x)] *)
Definition Energy (x : R) : result R :=
  do d <- D x ;
  Ok (py_pow PHI d * Theta x).



Definition Rltb (a b : R) : bool := if Rlt_dec a b then true else false.




End Core.

(** ** analyzer.py: SumRuleValidator *)

Module SumRule.

Local Open Scope Q_scope.

(** Float division [a / b]. *)
Definition py_div (a b : Q) : result Q :=
  if Qeq_bool b 0 then Raise ZeroDivisionError else Ok (a / b).

(** [sum(c_values)]: left to right from the start value [0]. *)
Definition py_sum (l : list Q) : Q := fold_left Qplus l 0.

(** Nearest integer, ties to the even one. *)
Definition round_half_even (q : Q) : Z :=
  let f := Qfloor q in
  match Qcompare (q - inject_Z f) (1 # 2) with
  | Lt => f
  | Gt => (f + 1)%Z
  | Eq => if Z.even f then f else (f + 1)%Z
  end.

(** [round(q, ndigits)] for [ndigits >= 0]. *)
Definition py_round (q : Q) (ndigits : N) : Q :=
  let scale := inject_Z (10 ^ Z.of_N ndigits) in
  inject_Z (round_half_even (q * scale)) / scale.


(** The unrounded deviation computed by [validate]. *)
Definition deviation (actual expected : Q) : result Q :=
  if Qeq_bool expected 0 then Ok (Qabs actual * 1e6)
  else
    do ratio <- py_div (Qabs (actual - expected)) (Qabs expected) ;
    Ok (ratio * 1e6).



(** The mathematical sum of a list. *)
Definition Qsum (l : list Q) : Q := fold_right Qplus 0 l.

(** The formula [deviation] evaluates, with the division of the field. *)
Definition code_deviation (actual expected : Q) : Q :=
  if Qeq_bool expected 0 then Qabs actual * 1e6
  else Qabs (actual - expected) / Qabs expected * 1e6.

(** The deviation as the specification words it, with its clamp [eps]. *)
Definition spec_deviation (eps actual expected : Q) : Q :=
  if Qeq_bool expected 0 then Qabs actual * 1e6
  else Qabs (actual - expected) / Qmax (Qabs expected) eps * 1e6.

End SumRule.

(** ** Python values and dictionaries *)

Module PyVal.

(** A dictionary keeps its keys in insertion order, so it is an association
    list with at most one binding per key. *)
#[warnings="-register-all"]
Inductive pyval : Type :=
  | PNone
  | PBool (b : bool)
  | PInt (z : Z)
  | PFloat (q : Q)
  | PStr (s : string)
  | PList (l : list pyval)
  | PDict (d : list (string * pyval)).

Abbreviation dict := (list (string * pyval)).

Fixpoint dict_get (k : string) (d : dict) : option pyval :=
  match d with
  | [] => None
  | (k', v) :: d' => if String.eqb k k' then Some v else dict_get k d'
  end.

(** [k in d] *)
Definition contains (k : string) (d : dict) : bool :=
  match dict_get k d with Some _ => true | None => false end.

(** [d[k]] *)
Definition getitem (d : dict) (k : string) : result pyval :=
  match dict_get k d with
  | Some v => Ok v
  | None => Raise (KeyError k)
  end.

(** [d[k] = v]: an existing key keeps its position. *)
Fixpoint dict_set (k : string) (v : pyval) (d : dict) : dict :=
  match d with
  | [] => [(k, v)]
  | (k', v') :: d' =>
      if String.eqb k k' then (k, v) :: d' else (k', v') :: dict_set k v d'
  end.

(** [{**d, **extra}] *)
Definition dict_update (d extra : dict) : dict :=
  fold_left (fun acc kv => dict_set (fst kv) (snd kv) acc) extra d.

(** Subscripting a value that is not a dictionary is a [TypeError]. *)
Definition as_dict (v : pyval) : result dict :=
  match v with PDict d => Ok d | _ => Raise TypeError end.

Definition as_int (v : pyval) : result Z :=
  match v with
  | PInt z => Ok z
  | PBool b => Ok (if b then 1%Z else 0%Z)
  | _ => Raise TypeError
  end.

(** Truth value of a Python object. *)
Definition truthy (v : pyval) : bool :=
  match v with
  | PNone => false
  | PBool b => b
  | PInt z => negb (z =? 0)%Z
  | PFloat q => negb (Qeq_bool q 0)
  | PStr s => negb (String.eqb s "")
  | PList l => match l with [] => false | _ => true end
  | PDict d => match d with [] => false | _ => true end
  end.

(** [v == s] for a string [s]. *)
Definition eq_str (v : pyval) (s : string) : bool :=
  match v with
  | PStr s' => String.eqb s' s
  | _ => false
  end.

(** [v != s] for a string literal [s]. *)
Definition ne_str (v : pyval) (s : string) : bool :=
  match v with
  | PStr s' => negb (String.eqb s' s)
  | _ => true
  end.

(** [list.sort]: a stable sort.  [le x y] says that [x] may stand before
    [y]; an element is put before the first one it may not follow, so equal
    elements keep their order. *)
Fixpoint insert_by {A : Type} (le : A -> A -> bool) (x : A) (l : list A) : list A :=
  match l with
  | [] => [x]
  | y :: l' => if le x y then x :: l else y :: insert_by le x l'
  end.

Definition sort_by {A : Type} (le : A -> A -> bool) (l : list A) : list A :=
  fold_right (insert_by le) [] l.

End PyVal.

(** ** core.py: sequences; analyzer.py: RepresentationDecomposer *)

Module Decomposer.
Import PyVal.

Local Open Scope Z_scope.

(** A loop whose trip count is not a structural measure runs on fuel:
    [None] is exhaustion of the fuel, never a Python outcome. *)
Definition fueled (A : Type) : Type := option (result A).

Definition fbind {A B : Type} (m : fueled A) (k : A -> fueled B) : fueled B :=
  match m with
  | None => None
  | Some (Raise e) => Some (Raise e)
  | Some (Ok a) => k a
  end.

Definition lift {A : Type} (m : result A) : fueled A := Some m.

(** The body of [for _ in range(cnt): a, b = b, a + b], returning [b]. *)
Fixpoint fib_loop (cnt : nat) (a b : Z) : Z :=
  match cnt with
  | O => b
  | S cnt' => fib_loop cnt' b (a + b)
  end.

(** [fib(n)] *)
Definition fib (n : Z) : result Z :=
  if n <? 0 then Raise (ValueError "fib(n) requires n >= 0")
  else if n <=? 1 then Ok n
  else Ok (fib_loop (Z.to_nat (n - 1)) 0 1).

(** The [while True] loop of [fibonacci_factors] collecting the Fibonacci
    numbers [fib(k), fib(k+1), ...] that do not exceed [n]; the set [seen]
    is the list of its members. *)
Fixpoint collect_fibs (fuel : nat) (n k : Z) (fibs seen : list Z) : fueled (list Z) :=
  match fuel with
  | O => None
  | S fuel' =>
      fbind (lift (fib k)) (fun f =>
        if f >? n then Some (Ok fibs)
        else if existsb (Z.eqb f) seen
             then collect_fibs fuel' n (k + 1) fibs seen
             else collect_fibs fuel' n (k + 1) (fibs ++ [f]) (f :: seen))
  end.

(** [remaining % f] *)
Definition py_mod (a b : Z) : result Z :=
  if b =? 0 then Raise ZeroDivisionError else Ok (a mod b).

(** [while remaining > 1 and remaining % f == 0: ...] for one [f]. *)
Fixpoint divide_out (fuel : nat) (f remaining : Z) (factors : list Z)
  : fueled (list Z * Z) :=
  match fuel with
  | O => None
  | S fuel' =>
      if remaining >? 1 then
        fbind (lift (py_mod remaining f)) (fun m =>
          if m =? 0 then divide_out fuel' f (remaining / f) (factors ++ [f])
          else Some (Ok (factors, remaining)))
      else Some (Ok (factors, remaining))
  end.

(** [for f in fibs: while ...] *)
Fixpoint greedy (fuel : nat) (fibs : list Z) (remaining : Z) (factors : list Z)
  : fueled (list Z * Z) :=
  match fibs with
  | [] => Some (Ok (factors, remaining))
  | f :: fibs' =>
      fbind (divide_out fuel f remaining factors) (fun st =>
        greedy fuel fibs' (snd st) (fst st))
  end.

(** [product = 1; for f in factors: product *= f] *)
Definition py_product (factors : list Z) : Z := fold_left Z.mul factors 1.

(** [RepresentationDecomposer.fibonacci_factors(n)] with explicit fuel. *)
Definition fibonacci_factors_fuel (fuel : nat) (n : Z) : fueled dict :=
  if n <=? 0 then
    Some (Ok [("factors", PList []); ("product", PInt 0); ("residual", PInt n)])
  else
    fbind (collect_fibs fuel n 3 [] []) (fun fibs =>
    let fibs := sort_by Z.geb fibs in
    fbind (greedy fuel fibs n []) (fun st =>
    let factors := sort_by Z.leb (fst st) in
    let product := py_product factors in
    Some (Ok [("factors", PList (map PInt factors));
              ("product", PInt product);
              ("residual", PInt (n - product));
              ("exact", PBool (product =? n))]))).

(** Both loops make fewer than [n + 1] steps on input [n]. *)
Definition fibonacci_factors (n : Z) : fueled dict :=
  fibonacci_factors_fuel (S (Z.to_nat n)) n.

(** [KNOWN_REPS]: adjoint dimension, group, form. *)
Definition KNOWN_REPS : list (Z * (string * string)) :=
  [ (1,   ("U(1)", "F(1) = 1"));
    (3,   ("SU(2)", "F(4) = 3"));
    (8,   ("SU(3)", "F(6) = 8"));
    (12,  ("SM gauge", "L(12) = 322 states"));
    (24,  ("SU(5) adj", "F(5)^2 - 1 = 24"));
    (45,  ("SO(10) adj", "F(4)^2 * F(5) = 45"));
    (78,  ("E6 adj", "45 + 16 + 16_bar + 1"));
    (133, ("E7 adj", "133 = 7 * 19"));
    (248, ("E8 adj", "F(6) * 31 = 248")) ].

Fixpoint known_rep (dim : Z) (reps : list (Z * (string * string)))
  : option (string * string) :=
  match reps with
  | [] => None
  | (k, info) :: reps' => if dim =? k then Some info else known_rep dim reps'
  end.

(** [RepresentationDecomposer.gut_decomposition(parent_dim)] *)
Definition gut_decomposition (parent_dim : Z) : fueled dict :=
  match known_rep parent_dim KNOWN_REPS with
  | Some (group, form) =>
      fbind (fibonacci_factors parent_dim) (fun ff =>
      Some (Ok [("dimension", PInt parent_dim);
                ("group", PStr group);
                ("fibonacci_form", PStr form);
                ("fibonacci_factors", PDict ff)]))
  | None =>
      fbind (fibonacci_factors parent_dim) (fun fib_info =>
      Some (Ok [("dimension", PInt parent_dim);
                ("group", PStr "unknown");
                ("fibonacci_form", PNone);
                ("fibonacci_factors", PDict fib_info)]))
  end.

(** The score of one decomposition in [hierarchy_rank]. *)
Definition score_of (info : dict) : result Z :=
  do g <- getitem info "group" ;
  if ne_str g "unknown" then Ok 3
  else
    do ff <- getitem info "fibonacci_factors" ;
    do ffd <- as_dict ff ;
    do ex <- getitem ffd "exact" ;
    if truthy ex then Ok 2 else Ok 1.

(** The loop of [hierarchy_rank] building [ranked]. *)
Fixpoint rank_each (denominators : list Z) (ranked : list dict) : fueled (list dict) :=
  match denominators with
  | [] => Some (Ok ranked)
  | den :: rest =>
      fbind (gut_decomposition den) (fun info =>
      fbind (lift (score_of info)) (fun score =>
      rank_each rest
        (ranked ++ [dict_update [("denominator", PInt den); ("score", PInt score)] info])))
  end.

(** The sort key [(-r["score"], r["denominator"])]. *)
Definition rank_key (r : dict) : result (Z * Z) :=
  do s <- getitem r "score" ;
  do s <- as_int s ;
  do d <- getitem r "denominator" ;
  do d <- as_int d ;
  Ok (- s, d).

(** Tuples compare lexicographically. *)
Definition key_le (k1 k2 : Z * Z) : bool :=
  (fst k1 <? fst k2) || ((fst k1 =? fst k2) && (snd k1 <=? snd k2)).

(** The keys of a sort are computed first, in list order. *)
Fixpoint decorate (l : list dict) : result (list ((Z * Z) * dict)) :=
  match l with
  | [] => Ok []
  | r :: l' =>
      do k <- rank_key r ;
      do rest <- decorate l' ;
      Ok ((k, r) :: rest)
  end.

(** [RepresentationDecomposer.hierarchy_rank(denominators)] *)
Definition hierarchy_rank (denominators : list Z) : fueled (list dict) :=
  fbind (rank_each denominators []) (fun ranked =>
  fbind (lift (decorate ranked)) (fun keyed =>
  Some (Ok (map snd (sort_by (fun a b => key_le (fst a) (fst b)) keyed))))).

(** *** Vocabulary of the statements *)

(** The Fibonacci sequence, [F 0 = 0], [F 1 = 1]. *)
Fixpoint F (j : nat) : Z :=
  match j with
  | O => 0
  | S j' => match j' with
            | O => 1
            | S j'' => F j' + F j''
            end
  end.

Definition is_fibonacci (f : Z) : Prop := exists j, f = F j.

(** The mathematical product of a list. *)
Definition Zprod (l : list Z) : Z := fold_right Z.mul 1 l.

(** What [fibonacci_factors] may divide by. *)
Definition candidate (n f : Z) : Prop := 2 <= f <= n /\ is_fibonacci f.

(** The record [fibonacci_factors] returns past its guard. *)
Definition factor_record (n : Z) (fs : list Z) : dict :=
  [("factors", PList (map PInt fs));
   ("product", PInt (Zprod fs));
   ("residual", PInt (n - Zprod fs));
   ("exact", PBool (Zprod fs =? n))].

(** The record of the guard [n <= 0]: it has no key ["exact"]. *)
Definition empty_record (n : Z) : dict :=
  [("factors", PList []); ("product", PInt 0); ("residual", PInt n)].

Definition gut_record (den : Z) (group : string) (form : pyval) (ff : dict) : dict :=
  [("dimension", PInt den); ("group", PStr group);
   ("fibonacci_form", form); ("fibonacci_factors", PDict ff)].

(** One element of the list [hierarchy_rank] returns. *)
Definition ranked_record (den score : Z) (group : string) (form : pyval) (ff : dict)
  : dict :=
  ("denominator", PInt den) :: ("score", PInt score) :: gut_record den group form ff.

(** The score as the specification words it. *)
Definition spec_score (den : Z) (exact : bool) : Z :=
  match known_rep den KNOWN_REPS with
  | Some _ => 3
  | None => if exact then 2 else 1
  end.

(** The record built for a positive denominator, scored as specified. *)
Definition entry_for (den : Z) (r : dict) : Prop :=
  exists fs group form,
    r = ranked_record den (spec_score den (Zprod fs =? den)) group form
          (factor_record den fs) /\
    (group = "unknown" <-> known_rep den KNOWN_REPS = None) /\
    Sorted Z.le fs /\ Forall (candidate den) fs.

(** Descending score, ties by ascending denominator. *)
Definition rank_before (r1 r2 : dict) : Prop :=
  exists s1 d1 s2 d2,
    getitem r1 "score" = Ok (PInt s1) /\ getitem r1 "denominator" = Ok (PInt d1) /\
    getitem r2 "score" = Ok (PInt s2) /\ getitem r2 "denominator" = Ok (PInt d2) /\
    (s2 < s1 \/ (s1 = s2 /\ d1 <= d2)).

End Decomposer.

(** ** adapters: the result type and the guards of [analyze] *)

Module Adapters.
Import PyVal.

(** [AnalysisResult] of [adapters/base.py]; [metadata] defaults to [{}]. *)
Record AnalysisResult : Type := {
  success : bool;
  data : dict;
  d_space_values : pyval;
  consistency_score : Q;
  hierarchy : list dict;
  recommendations : list pyval;
  metadata : dict
}.

(** [len(v)] *)
Definition py_len (v : pyval) : result Z :=
  match v with
  | PList l => Ok (Z.of_nat (length l))
  | PDict d => Ok (Z.of_nat (length d))
  | PStr s => Ok (Z.of_nat (String.length s))
  | _ => Raise TypeError
  end.

(** The three variants of the adapter protocol. *)
Inductive adapter : Type :=
  | CalibrationAdapter
  | SensorFusionAdapter
  | PhotosynthesisAdapter.

Section Analyze.

(** The numeric analyses past the guards, and the text an f-string gives
    for a value: they take no part in the guards. *)
Variable calibration_analysis : dict -> result AnalysisResult.
Variable fusion_analysis : dict -> result AnalysisResult.
Variable _analyze_cascade : dict -> result AnalysisResult.
Variable _analyze_mof : dict -> result AnalysisResult.
Variable _analyze_full : dict -> result AnalysisResult.
Variable py_format : pyval -> string.

(** [AnalysisResult(success=False, data=d_data, d_space_values=values,
    consistency_score=0.0, hierarchy=[], recommendations=[message])] *)
Definition failure (d_data : dict) (values message : pyval) : AnalysisResult :=
  {| success := false;
     data := d_data;
     d_space_values := values;
     consistency_score := 0;
     hierarchy := [];
     recommendations := [message];
     metadata := [] |}.

(** [CalibrationAdapter.analyze] *)
Definition calibration_analyze (d_data : dict) : result AnalysisResult :=
  if contains "error" d_data then
    do message <- getitem d_data "error" ;
    Ok (failure d_data (PList []) message)
  else
    do residuals <- getitem d_data "d_residuals" ;
    do n <- py_len residuals ;
    if (n <? 2)%Z then
      Ok (failure d_data residuals (PStr "Need at least 2 valid readings"))
    else calibration_analysis d_data.

(** [SensorFusionAdapter.analyze] *)
Definition fusion_analyze (d_data : dict) : result AnalysisResult :=
  if contains "error" d_data then
    do message <- getitem d_data "error" ;
    Ok (failure d_data (PList []) message)
  else
    do sensor_data <- getitem d_data "sensor_data" ;
    if negb (truthy sensor_data) then
      Ok (failure d_data (PList []) (PStr "No sensor data to fuse"))
    else fusion_analysis d_data.

(** [PhotosynthesisAdapter.analyze] *)
Definition photosynthesis_analyze (d_data : dict) : result AnalysisResult :=
  if contains "error" d_data then
    do message <- getitem d_data "error" ;
    Ok (failure d_data (PList []) message)
  else
    do mode <- getitem d_data "mode" ;
    if eq_str mode "cascade" then _analyze_cascade d_data
    else if eq_str mode "mof_filter" then _analyze_mof d_data
    else if eq_str mode "full_system" then _analyze_full d_data
    else Ok (failure d_data (PList [])
               (PStr ("Unknown mode '" ++ py_format mode ++ "'")%string)).

(** [adapter.analyze(d_data)] *)
Definition analyze (a : adapter) (d_data : dict) : result AnalysisResult :=
  match a with
  | CalibrationAdapter => calibration_analyze d_data
  | SensorFusionAdapter => fusion_analyze d_data
  | PhotosynthesisAdapter => photosynthesis_analyze d_data
  end.

End Analyze.

(** The marker [CalibrationAdapter.ingest] gives for an empty list of
    readings. *)
Definition no_readings : dict :=
  [("error", PStr "No readings provided"); ("d_readings", PList []);
   ("d_ref", PFloat 0)].

(** Stand-ins for the analyses past the guards. *)
Definition not_reached (d : dict) : result AnalysisResult := Raise TypeError.
Definition no_format (v : pyval) : string := "".

End Adapters.

(** ** constants_db.py: the queries of ConstantsDB *)

Module ConstantsDB.
Import PyVal.

(** The constant records are dictionaries shared by reference: the table
    of an instance, [list(_DB)], holds the very objects of [_DB].  An object
    lives in the heap at its address; allocation extends the heap. *)
Abbreviation loc := nat.
Abbreviation heap := (list dict).

(** The object at an address.  Every address held by the program is one
    of an allocated object; the empty record stands for the others. *)
Definition deref (h : heap) (l : loc) : dict := default [] (h !! l).

Definition alloc (d : dict) (h : heap) : loc * heap := (length h, h ++ [d]).

(** [dict(c)]: a new object with the bindings of [c]. *)
Definition dict_copy (c : loc) (h : heap) : loc * heap := alloc (deref h c) h.

(** [[dict(c) for c in cs]] *)
Fixpoint copy_all (cs : list loc) (h : heap) : list loc * heap :=
  match cs with
  | [] => ([], h)
  | c :: cs' =>
      let (l, h1) := dict_copy c h in
      let (ls, h2) := copy_all cs' h1 in
      (l :: ls, h2)
  end.

(** What the caller may do to an object it holds, among it [d[k] = v],
    which is [mutate l (dict_set k v)]. *)
Definition mutate (l : loc) (f : dict -> dict) (h : heap) : heap := alter f l h.

(** [[c for c in cs if p(c)]]: the test is made in list order and may
    raise. *)
Fixpoint filter_py (p : dict -> result bool) (look : loc -> dict) (cs : list loc)
  : result (list loc) :=
  match cs with
  | [] => Ok []
  | c :: cs' =>
      do b <- p (look c) ;
      do rest <- filter_py p look cs' ;
      Ok (if b then c :: rest else rest)
  end.

(** The loop of [get]: the first record named [name]. *)
Fixpoint select_get (look : loc -> dict) (name : string) (cs : list loc)
  : result (option loc) :=
  match cs with
  | [] => Ok None
  | c :: cs' =>
      do v <- getitem (look c) "name" ;
      if eq_str v name then Ok (Some c) else select_get look name cs'
  end.

(** [str.lower], on the ASCII letters. *)
Definition lower_ascii (a : Ascii.ascii) : Ascii.ascii :=
  let n := Ascii.nat_of_ascii a in
  if ((65 <=? n) && (n <=? 90))%nat then Ascii.ascii_of_nat (n + 32) else a.

Fixpoint lower (s : string) : string :=
  match s with
  | EmptyString => EmptyString
  | String a s' => String (lower_ascii a) (lower s')
  end.

(** [v.lower()]: only a string has the method. *)
Definition str_lower (v : pyval) : result string :=
  match v with
  | PStr s => Ok (lower s)
  | _ => Raise AttributeError
  end.

(** [q in s] for strings. *)
Fixpoint is_substring (q s : string) : bool :=
  String.prefix q s ||
  match s with
  | EmptyString => false
  | String _ s' => is_substring q s'
  end.

(** The truth value of an optional string argument. *)
Definition given (arg : option string) : option string :=
  match arg with
  | Some s => if String.eqb s "" then None else Some s
  | None => None
  end.

(** The records [search] selects. *)
Definition select_search (look : loc -> dict) (sector query : option string)
    (cs : list loc) : result (list loc) :=
  do by_sector <-
    match given sector with
    | Some s =>
        filter_py (fun d => do v <- getitem d "sector" ; Ok (eq_str v s)) look cs
    | None => Ok cs
    end ;
  match given query with
  | Some qs =>
      let q := lower qs in
      filter_py (fun d => do v <- getitem d "name" ;
                          do n <- str_lower v ;
                          Ok (is_substring q n)) look by_sector
  | None => Ok by_sector
  end.

(** A number as an exact rational; comparing anything else with a number
    is a [TypeError]. *)
Definition as_number (v : pyval) : result Q :=
  match v with
  | PFloat q => Ok q
  | PInt z => Ok (inject_Z z)
  | PBool b => Ok (if b then 1%Q else 0%Q)
  | _ => Raise TypeError
  end.

(** [c["deviation_ppm"] > 0] *)
Definition non_exact (d : dict) : result bool :=
  do v <- getitem d "deviation_ppm" ;
  do q <- as_number v ;
  Ok (negb (Qle_bool q 0)).

(** The keys [c["deviation_ppm"]] of the sort, computed in list order. *)
Fixpoint ppm_keys (look : loc -> dict) (cs : list loc) : result (list (Q * loc)) :=
  match cs with
  | [] => Ok []
  | c :: cs' =>
      do v <- getitem (look c) "deviation_ppm" ;
      do q <- as_number v ;
      do rest <- ppm_keys look cs' ;
      Ok ((q, c) :: rest)
  end.

(** [l[:n]]: a negative [n] counts from the end. *)
Definition slice_to (n : Z) {A : Type} (l : list A) : list A :=
  if (n <? 0)%Z then firstn (Z.to_nat (Z.of_nat (length l) + n)) l
  else firstn (Z.to_nat n) l.

(** The records [best_predictions] selects. *)
Definition select_best (look : loc -> dict) (n : Z) (cs : list loc)
  : result (list loc) :=
  do kept <- filter_py non_exact look cs ;
  do keyed <- ppm_keys look kept ;
  Ok (slice_to n (map snd (sort_by (fun a b => Qle_bool (fst a) (fst b)) keyed))).

Inductive query : Type :=
  | Get (name : string)
  | Search (sector query : option string)
  | BestPredictions (n : Z).

(** What a query returns: [None] or one record for [get], a list for the
    other two. *)
Inductive answer (A : Type) : Type :=
  | One (r : option A)
  | Many (rs : list A).

Arguments One {A} r.
Arguments Many {A} rs.

Definition answer_map {A B : Type} (f : A -> B) (a : answer A) : answer B :=
  match a with
  | One r => One (option_map f r)
  | Many rs => Many (map f rs)
  end.

Definition answer_list {A : Type} (a : answer A) : list A :=
  match a with
  | One (Some r) => [r]
  | One None => []
  | Many rs => rs
  end.

(** The stored records a query selects, before they are copied. *)
Definition select (look : loc -> dict) (q : query) (db : list loc)
  : result (answer loc) :=
  match q with
  | Get name => do r <- select_get look name db ; Ok (One r)
  | Search sector query => do rs <- select_search look sector query db ; Ok (Many rs)
  | BestPredictions n => do rs <- select_best look n db ; Ok (Many rs)
  end.

(** The copies handed out. *)
Definition copy_answer (a : answer loc) (h : heap) : answer loc * heap :=
  match a with
  | One None => (One None, h)
  | One (Some c) => let (l, h') := dict_copy c h in (One (Some l), h')
  | Many cs => let (ls, h') := copy_all cs h in (Many ls, h')
  end.

(** A query on the instance whose [_constants] is [db]. *)
Definition run_query (db : list loc) (q : query) (h : heap)
  : result (answer loc) * heap :=
  match select (deref h) q db with
  | Raise e => (Raise e, h)
  | Ok a => let (a', h') := copy_answer a h in (Ok a', h')
  end.

(** [db.get(name)], [db.search(sector, query)], [db.best_predictions(n)] *)
Definition get (db : list loc) (name : string) :=
  run_query db (Get name).

Definition search (db : list loc) (sector query : option string) :=
  run_query db (Search sector query).

Definition best_predictions (db : list loc) (n : Z) :=
  run_query db (BestPredictions n).

(** The records a call hands to its caller. *)
Definition returned (r : result (answer loc)) : list loc :=
  match r with
  | Ok a => answer_list a
  | Raise _ => []
  end.

(** The value of a result: the records themselves. *)
Definition observe (out : result (answer loc) * heap) : result (answer dict) :=
  match fst out with
  | Raise e => Raise e
  | Ok a => Ok (answer_map (deref (snd out)) a)
  end.

(** What the caller does between two queries. *)
Inductive step : Type :=
  | Ask (q : query)
  | Mutate (l : loc) (f : dict -> dict).

Definition run_step (db : list loc) (h : heap) (s : step) : heap :=
  match s with
  | Ask q => snd (run_query db q h)
  | Mutate l f => mutate l f h
  end.

Definition run_steps (db : list loc) (steps : list step) (h : heap) : heap :=
  fold_left (run_step db) steps h.

(** *** Vocabulary of the statements *)

Local Open Scope nat_scope.

(** A value without parts that could be shared: what [_entry] stores. *)
Definition scalar (v : pyval) : bool :=
  match v with
  | PList _ | PDict _ => false
  | _ => true
  end.

(** Every address of the table is one of an allocated object. *)
Definition well_formed (db : list loc) (h : heap) : Prop :=
  Forall (fun c => c < length h) db.

(** The stored records hold scalars only, so that [dict(c)] shares nothing
    with [c]. *)
Definition scalar_records (db : list loc) (h : heap) : Prop :=
  Forall (fun c => forallb (fun kv => scalar (snd kv)) (deref h c) = true) db.

(** Two views of the heap that show the same stored records. *)
Definition agree (cs : list loc) (look1 look2 : loc -> dict) : Prop :=
  forall c, c ∈ cs -> look1 c = look2 c.

(** A caller that mutates only records it was handed by an earlier query:
    [held] are the records handed out so far. *)
Fixpoint caller_ok (db : list loc) (h : heap) (held : list loc) (steps : list step)
  : bool :=
  match steps with
  | [] => true
  | Ask q :: rest =>
      let out := run_query db q h in
      caller_ok db (snd out) (held ++ returned (fst out)) rest
  | Mutate l f :: rest =>
      existsb (Nat.eqb l) held && caller_ok db (mutate l f h) held rest
  end.

(** The stored records of [h] are those of [h0]. *)
Definition preserved (db : list loc) (h0 h : heap) : Prop :=
  length h0 <= length h /\ agree db (deref h) (deref h0).

(** Four records of the table as [_entry] builds them, and a caller that
    overwrites the copies it was handed. *)
Definition sample_heap : heap :=
  [ [("name", PStr "PHI"); ("value", PFloat 1.6180339887498949);
     ("experimental", PFloat 1.6180339887498949); ("unit", PStr "");
     ("sector", PStr "core"); ("formula", PStr "(1+sqrt(5))/2");
     ("deviation_ppm", PFloat 0)];
    [("name", PStr "M_W"); ("value", PFloat 80.379);
     ("experimental", PFloat 80.3692); ("unit", PStr "GeV");
     ("sector", PStr "electroweak"); ("formula", PStr "Brahim tree");
     ("deviation_ppm", PFloat 121.9)];
    [("name", PStr "Omega_b"); ("value", PFloat 0.05);
     ("experimental", PFloat 0.0486); ("unit", PStr "");
     ("sector", PStr "cosmology"); ("formula", PStr "5% exact integer");
     ("deviation_ppm", PFloat 28806.6)];
    [("name", PStr "rho_parameter"); ("value", PFloat 1.0);
     ("experimental", PFloat 1.00040); ("unit", PStr "");
     ("sector", PStr "electroweak");
     ("formula", PStr "M_W^2 / (M_Z^2 * cos^2(theta_W))");
     ("deviation_ppm", PFloat 399.8)] ].

Definition sample_db : list loc := [0; 1; 2; 3].

Definition sample_caller : list step :=
  [ Ask (Get "M_W");
    Mutate 4 (dict_set "deviation_ppm" (PFloat 0));
    Ask (BestPredictions 2);
    Mutate 5 (dict_set "name" (PStr "PHI"));
    Mutate 6 (fun _ => []) ].

End ConstantsDB.

(** ** core.py: lucas and mirror; analyzer.py: mirror_symmetry *)

Module Sequences.
Import PyVal Decomposer.
Local Open Scope Z_scope.

Definition LUCAS_NUMBERS : list Z :=
  [1; 3; 4; 7; 11; 18; 29; 47; 76; 123; 199; 322].

(** [lucas(n)]: the table for [1 <= n <= len(LUCAS_NUMBERS)], otherwise the
    loop [a, b = 2, 1; for _ in range(n - 1): a, b = b, a + b] and [b]. *)
Definition lucas (n : Z) : Z :=
  if (1 <=? n) && (n <=? Z.of_nat (length LUCAS_NUMBERS))
  then nth (Z.to_nat (n - 1)) LUCAS_NUMBERS 0
  else fib_loop (Z.to_nat (n - 1)) 2 1.

Definition MIRROR_CONSTANT : Z := 214.

(** [mirror(x) = MIRROR_CONSTANT - x] *)
Definition mirror (x : Z) : Z := MIRROR_CONSTANT - x.

(** The loop of [ConsistencyChecker.mirror_symmetry]. *)
Fixpoint mirror_loop (values : list Z) (all_valid : bool) (results : list pyval)
  : bool * list pyval :=
  match values with
  | [] => (all_valid, results)
  | v :: rest =>
      let m := mirror v in
      let mm := mirror m in
      let valid := mm =? v in
      mirror_loop rest (if negb valid then false else all_valid)
        (results ++ [PDict [("value", PInt v); ("mirror", PInt m);
                            ("mirror_mirror", PInt mm); ("valid", PBool valid)]])
  end.

(** [ConsistencyChecker.mirror_symmetry(values)] *)
Definition mirror_symmetry (values : list Z) : dict :=
  let (all_valid, results) := mirror_loop values true [] in
  [("all_valid", PBool all_valid); ("checks", PList results)].

End Sequences.

(** ** constants_db.py: _entry, validate_against *)

Module ConstantsTable.
Import PyVal ConstantsDB.
Local Open Scope Q_scope.

(** [_entry(name, value, experimental, unit, sector, formula)] *)
Definition _entry (name : string) (value experimental : Q)
    (unit sector formula : string) : result dict :=
  do ppm <-
    (if negb (Qeq_bool experimental 0) then
       do ratio <- SumRule.py_div (Qabs (value - experimental)) (Qabs experimental) ;
       Ok (ratio * 1e6)
     else Ok 0) ;
  Ok [("name", PStr name);
      ("value", PFloat value);
      ("experimental", PFloat experimental);
      ("unit", PStr unit);
      ("sector", PStr sector);
      ("formula", PStr formula);
      ("deviation_ppm", PFloat (SumRule.py_round ppm 1))].

(** One comparison of [validate_against], for the copy [entry] that [get]
    handed out. *)
Definition compare_entry (name : string) (exp_val : Q) (entry : dict) : result dict :=
  do ppm <-
    (if negb (Qeq_bool exp_val 0) then
       do v <- getitem entry "value" ;
       do predicted <- as_number v ;
       do ratio <- SumRule.py_div (Qabs (predicted - exp_val)) (Qabs exp_val) ;
       Ok (ratio * 1e6)
     else Ok 0) ;
  do v <- getitem entry "value" ;
  Ok [("name", PStr name);
      ("predicted", v);
      ("experimental", PFloat exp_val);
      ("deviation_ppm", PFloat (SumRule.py_round ppm 1))].

(** The loop of [validate_against] over [experimental.items()]; every
    [self.get(name)] allocates its copy. *)
Fixpoint compare_each (db : list loc) (experimental : list (string * Q))
    (results : list pyval) (h : heap) : result (list pyval) * heap :=
  match experimental with
  | [] => (Ok results, h)
  | (name, exp_val) :: rest =>
      let (r, h1) := get db name h in
      match r with
      | Raise e => (Raise e, h1)
      | Ok (One None) =>
          compare_each db rest
            (results ++ [PDict [("name", PStr name); ("error", PStr "not found")]]) h1
      | Ok (One (Some entry)) =>
          match compare_entry name exp_val (deref h1 entry) with
          | Raise e => (Raise e, h1)
          | Ok d => compare_each db rest (results ++ [PDict d]) h1
          end
      | Ok (Many _) => (Raise TypeError, h1)
      end
  end.

(** [ConstantsDB.validate_against(experimental)] *)
Definition validate_against (db : list loc) (experimental : list (string * Q))
    (h : heap) : result dict * heap :=
  let (r, h') := compare_each db experimental [] h in
  (do results <- r ; Ok [("comparisons", PList results)], h').

(** *** Vocabulary of the statements *)

(** [d["name"] == name] *)
Definition named (name : string) (d : dict) : bool :=
  match dict_get "name" d with
  | Some v => eq_str v name
  | None => false
  end.

(** The sector test of [search]. *)
Definition in_sector (sector : option string) (d : dict) : bool :=
  match given sector with
  | Some s => match dict_get "sector" d with
              | Some v => eq_str v s
              | None => false
              end
  | None => true
  end.

(** The name test of [search]. *)
Definition name_matches (query : option string) (d : dict) : bool :=
  match given query with
  | Some qs => match dict_get "name" d with
               | Some (PStr s) => is_substring (lower qs) (lower s)
               | _ => false
               end
  | None => true
  end.

(** A record [search] can test: it has a sector and a string for a name. *)
Definition searchable (d : dict) : bool :=
  contains "sector" d &&
  match dict_get "name" d with Some (PStr _) => true | _ => false end.

(** The deviation a record carries, where it is a number. *)
Definition ppm_of (d : dict) : Q :=
  match dict_get "deviation_ppm" d with
  | Some v => match as_number v with Ok q => q | Raise _ => 0 end
  | None => 0
  end.

Definition has_ppm (d : dict) : bool :=
  match dict_get "deviation_ppm" d with
  | Some v => match as_number v with Ok _ => true | Raise _ => false end
  | None => false
  end.

(** [c["deviation_ppm"] > 0] *)
Definition positive_ppm (d : dict) : bool := negb (Qle_bool (ppm_of d) 0).

Definition ppm_le (d1 d2 : dict) : Prop := ppm_of d1 <= ppm_of d2.

(** The length of [l[:n]] for a list of length [len]. *)
Definition slice_length (n : Z) (len : nat) : nat :=
  if (n <? 0)%Z then Z.to_nat (Z.of_nat len + n) else Nat.min (Z.to_nat n) len.

(** The deviation [_entry] and [validate_against] store: parts per million
    of the experimental value, 0 for an experimental value of 0, rounded to
    one decimal. *)
Definition rounded_ppm (value experimental : Q) : Q :=
  SumRule.py_round
    (if Qeq_bool experimental 0 then 0
     else Qabs (value - experimental) / Qabs experimental * 1e6) 1.

(** A record [validate_against] can compare: it has a name and a number
    for a value. *)
Definition comparable (d : dict) : bool :=
  contains "name" d &&
  match dict_get "value" d with
  | Some v => match as_number v with Ok _ => true | Raise _ => false end
  | None => false
  end.

(** The comparison [validate_against] makes for one item of its argument,
    against the records of the table. *)
Definition comparison (records : list dict) (item : string * Q) (r : pyval) : Prop :=
  match List.find (named (fst item)) records with
  | None => r = PDict [("name", PStr (fst item)); ("error", PStr "not found")]
  | Some e =>
      exists v value,
        dict_get "value" e = Some v /\ as_number v = Ok value /\
        r = PDict [("name", PStr (fst item));
                   ("predicted", v);
                   ("experimental", PFloat (snd item));
                   ("deviation_ppm", PFloat (rounded_ppm value (snd item)))]
  end.

End ConstantsTable.

(** ** analyzer.py: find_missing *)

Module Analyzer.
Import SumRule.
Local Open Scope Q_scope.


End Analyzer.

(** ** engine.py: the adapter registry; adapters: ingest and report *)

Module Engine.
Import PyVal.

(** An object with the three methods of [BaseAdapter]. *)
Record BaseAdapter : Type := {
  ingest : dict -> result dict;
  analyze : dict -> result Adapters.AnalysisResult;
  report : Adapters.AnalysisResult -> result dict
}.

(** [self._adapters]: names in insertion order, each bound to an adapter
    or to [None]. *)
Abbreviation registry := (list (string * option BaseAdapter)).

(** [self._adapters.get(name)] *)
Fixpoint adapters_get (name : string) (adapters : registry)
  : option (option BaseAdapter) :=
  match adapters with
  | [] => None
  | (k, a) :: rest => if String.eqb name k then Some a else adapters_get name rest
  end.

(** [register_adapter]: [self._adapters[name] = adapter] *)
Fixpoint register_adapter (name : string) (adapter : option BaseAdapter)
    (adapters : registry) : registry :=
  match adapters with
  | [] => [(name, adapter)]
  | (k, a) :: rest =>
      if String.eqb name k then (name, adapter) :: rest
      else (k, a) :: register_adapter name adapter rest
  end.

(** [list_adapters]: [list(self._adapters)] *)
Definition list_adapters (adapters : registry) : list string := map fst adapters.

(** [run(adapter_name, data)] *)
Definition run (adapters : registry) (adapter_name : string) (data : dict)
  : result dict :=
  match adapters_get adapter_name adapters with
  | None | Some None =>
      Ok [("error", PStr ("Adapter '" ++ adapter_name ++ "' not registered")%string)]
  | Some (Some adapter) =>
      do ingested <- ingest adapter data ;
      do result <- analyze adapter ingested ;
      report adapter result
  end.

End Engine.

Module AdapterPipeline.
Import PyVal Adapters.

(** [d.get(k, default)] *)
Definition get_default (d : dict) (k : string) (default : pyval) : pyval :=
  match dict_get k d with
  | Some v => v
  | None => default
  end.

(** [x or y] *)
Definition py_or (x y : pyval) : pyval := if truthy x then x else y.

Section Concrete.

(** The transforms to D-space past the guards of [ingest], the analyses
    past the guards of [analyze], [float] of a string and the text of an
    f-string field. *)
Variable calibration_d_space : dict -> result dict.
Variable fusion_d_space : dict -> result dict.
Variable _ingest_cascade : dict -> Q -> Q -> result dict.
Variable _ingest_mof : dict -> result dict.
Variable _ingest_full : dict -> Q -> Q -> result dict.
Variable calibration_analysis : dict -> result AnalysisResult.
Variable fusion_analysis : dict -> result AnalysisResult.
Variable _analyze_cascade : dict -> result AnalysisResult.
Variable _analyze_mof : dict -> result AnalysisResult.
Variable _analyze_full : dict -> result AnalysisResult.
Variable float_of_str : string -> result Q.
Variable py_format : pyval -> string.

(** [float(v)] *)
Definition py_float (v : pyval) : result Q :=
  match v with
  | PFloat q => Ok q
  | PInt z => Ok (inject_Z z)
  | PBool b => Ok (if b then 1%Q else 0%Q)
  | PStr s => float_of_str s
  | _ => Raise TypeError
  end.

(** [CalibrationAdapter.ingest] *)
Definition calibration_ingest (raw_data : dict) : result dict :=
  let readings := get_default raw_data "readings" (PList []) in
  let reference := get_default raw_data "reference" (PFloat 1) in
  if negb (truthy readings) then
    Ok [("error", PStr "No readings provided"); ("d_readings", PList []);
        ("d_ref", PFloat 0)]
  else
    do ref <- ConstantsDB.as_number reference ;
    if Qle_bool ref 0 then
      Ok [("error", PStr "Reference must be > 0"); ("d_readings", PList []);
          ("d_ref", PFloat 0)]
    else calibration_d_space raw_data.

(** [CalibrationAdapter.report] for the configured name. *)
Definition calibration_report (name : string) (res : AnalysisResult) : result dict :=
  let data := data res in
  do n <- py_len (d_space_values res) ;
  Ok [("adapter", PStr name);
      ("success", PBool (success res));
      ("consistency_score", PFloat (SumRule.py_round (consistency_score res) 6));
      ("drift", get_default data "drift" (PDict []));
      ("d_space_summary",
       PDict [("mean", get_default data "d_mean" (PInt 0));
              ("std", get_default data "d_std" (PInt 0));
              ("n_readings", PInt n)]);
      ("sum_rule", get_default data "sum_rule" (PDict []));
      ("corrected_values", get_default data "corrected_values" (PList []));
      ("recommendations", PList (recommendations res))].

Definition calibration_adapter (name : string) : Engine.BaseAdapter :=
  {| Engine.ingest := calibration_ingest;
     Engine.analyze := calibration_analyze calibration_analysis;
     Engine.report := calibration_report name |}.

(** [SensorFusionAdapter.ingest] *)
Definition fusion_ingest (raw_data : dict) : result dict :=
  let sensors := get_default raw_data "sensors" (PList []) in
  if negb (truthy sensors) then
    Ok [("error", PStr "No sensors provided"); ("sensor_data", PList [])]
  else fusion_d_space raw_data.

(** [SensorFusionAdapter.report] *)
Definition fusion_report (name : string) (res : AnalysisResult) : result dict :=
  let data := data res in
  Ok [("adapter", PStr name);
      ("success", PBool (success res));
      ("fused_estimate",
       PDict [("d_space", get_default data "fused_d" (PInt 0));
              ("real_value", get_default data "fused_value" (PInt 0))]);
      ("consistency_score", PFloat (SumRule.py_round (consistency_score res) 6));
      ("inter_sensor_std", get_default data "inter_sensor_std" (PInt 0));
      ("ref_deviation", get_default data "ref_deviation" PNone);
      ("sensor_quality", get_default data "sensor_quality" (PList []));
      ("recommendations", PList (recommendations res))].

Definition fusion_adapter (name : string) : Engine.BaseAdapter :=
  {| Engine.ingest := fusion_ingest;
     Engine.analyze := fusion_analyze fusion_analysis;
     Engine.report := fusion_report name |}.

(** [PhotosynthesisAdapter.ingest] *)
Definition photosynthesis_ingest (raw_data : dict) : result dict :=
  let mode := get_default raw_data "mode" (PStr "cascade") in
  do temp_c <- py_float (get_default raw_data "temperature_c" (PFloat 25)) ;
  do co2_ppm <- py_float (get_default raw_data "co2_ppm" (PFloat 415)) ;
  if eq_str mode "cascade" then _ingest_cascade raw_data temp_c co2_ppm
  else if eq_str mode "mof_filter" then _ingest_mof raw_data
  else if eq_str mode "full_system" then _ingest_full raw_data temp_c co2_ppm
  else Ok [("error", PStr ("Unknown mode '" ++ py_format mode ++ "'")%string)].

(** [PhotosynthesisAdapter.report] *)
Definition photosynthesis_report (name : string) (res : AnalysisResult)
  : result dict :=
  let data := data res in
  let mode :=
    py_or (get_default data "mode" PNone)
      (if contains "subsystems" data then PStr "full_system"
       else if contains "mof_ranking" data then PStr "mof_filter"
       else PStr "cascade") in
  let base :=
    [("adapter", PStr name);
     ("mode", mode);
     ("success", PBool (success res));
     ("consistency_score", PFloat (SumRule.py_round (consistency_score res) 6));
     ("recommendations", PList (recommendations res))] in
  if eq_str mode "cascade" then
    Ok (dict_update base
          [("overall_efficiency",
            PDict [("value", get_default data "overall_efficiency" PNone);
                   ("d_value", get_default data "d_overall" PNone)]);
           ("step_analysis", get_default data "step_analysis" (PList []));
           ("bottleneck", get_default data "bottleneck" (PDict []));
           ("gap_to_target", get_default data "gap_to_target" (PDict []));
           ("sum_rule", get_default data "sum_rule" (PDict []));
           ("env_corrections", get_default data "env_corrections" (PDict []))])
  else if eq_str mode "mof_filter" then
    Ok (dict_update base
          [("mof_ranking", get_default data "mof_ranking" (PList []));
           ("phi_optimal_pore_nm", get_default data "phi_optimal_pore_nm" PNone);
           ("total_candidates", get_default data "total_candidates" PNone);
           ("after_constraints", get_default data "after_constraints" PNone)])
  else if eq_str mode "full_system" then
    Ok (dict_update base
          [("overall_efficiency", get_default data "overall_efficiency" PNone);
           ("d_system", get_default data "d_system" PNone);
           ("co2_per_m2_day_kg", get_default data "co2_per_m2_day_kg" PNone);
           ("subsystems", get_default data "subsystems" (PList []));
           ("bottleneck", get_default data "bottleneck" (PDict []));
           ("mof", get_default data "mof" (PDict []));
           ("coherence", get_default data "coherence" (PDict []));
           ("sum_rule", get_default data "sum_rule" (PDict []))])
  else Ok base.

Definition photosynthesis_adapter (name : string) : Engine.BaseAdapter :=
  {| Engine.ingest := photosynthesis_ingest;
     Engine.analyze :=
       photosynthesis_analyze _analyze_cascade _analyze_mof _analyze_full py_format;
     Engine.report := photosynthesis_report name |}.

End Concrete.

(** Stand-ins for the paths past the guards. *)
Definition no_ingest (raw_data : dict) : result dict := Raise TypeError.
Definition no_ingest_env (raw_data : dict) (temp_c co2_ppm : Q) : result dict :=
  Raise TypeError.
Definition no_float (s : string) : result Q := Raise (ValueError "could not convert string to float").

End AdapterPipeline.

(** ** engine.py: transforms; analyzer.py: full_check; ladder.py *)

Module Transforms.
Import Core.
Local Open Scope R_scope.

(** [[f(v) for v in values]]: the first error ends the comprehension. *)
Fixpoint comprehension {A B : Type} (f : A -> result B) (values : list A)
  : result (list B) :=
  match values with
  | [] => Ok []
  | v :: rest =>
      do y <- f v ;
      do ys <- comprehension f rest ;
      Ok (y :: ys)
  end.



Definition phase (values : list R) : list R := map Theta values.

Definition energy (values : list R) : result (list R) := comprehension Energy values.


(** [_clamp_efficiency(eta) = max(1e-10, min(eta, 1.0))] of
    [adapters/photosynthesis.py] *)
Definition _clamp_efficiency (eta : R) : R := Rmax 1e-10 (Rmin eta 1).

End Transforms.

Module Ladder.
Import Core.
Local Open Scope R_scope.

(** [KNOWN_SCALES]: dimension, label, description, in insertion order. *)
Definition KNOWN_SCALES : list (Z * (string * string)) :=
  [ (1%Z,   ("U(1) trivial", "F(1) = 1"));
    (3%Z,   ("SU(2) adjoint", "F(4) = 3"));
    (8%Z,   ("SU(3) adjoint", "F(6) = 8"));
    (12%Z,  ("SM gauge", "L(12) = 322 states"));
    (24%Z,  ("SU(5) adjoint", "F(5)^2 - 1 = 24"));
    (45%Z,  ("SO(10) adjoint", "F(4)^2 * F(5) = 45"));
    (78%Z,  ("E6 adjoint", "M_GUT"));
    (133%Z, ("E7 adjoint", "133 = 7 * 19"));
    (248%Z, ("E8 adjoint", "F(6) * 31 = 248")) ].

Definition M_PROTON : R := 0.93827.

(** [phi_power(n) = PHI ** n] *)
Definition phi_power (n : Z) : R := py_pow PHI (IZR n).

(** [energy_GeV(n, ref_mass)] *)
Definition energy_GeV (n : Z) (ref_mass : option R) : R :=
  let m := match ref_mass with Some m => m | None => M_PROTON end in
  m * phi_power n.

(** [d_space_step(from_scale, to_scale)] *)
Definition d_space_step (from_scale to_scale : R) : result R :=
  if Rle_dec from_scale 0 then Raise (ValueError "Scales must be > 0")
  else if Rle_dec to_scale 0 then Raise (ValueError "Scales must be > 0")
  else
    do d_from <- D from_scale ;
    do d_to <- D to_scale ;
    Ok (d_from - d_to).

(** [round(x)]: the nearest integer, ties to the even one. *)
Definition py_round_int (x : R) : Z :=
  let f := (up x - 1)%Z in
  let r := x - IZR f in
  if Rlt_dec r (1 / 2) then f
  else if Rlt_dec (1 / 2) r then (f + 1)%Z
  else if Z.even f then f else (f + 1)%Z.

Record scale_match : Type := {
  dimension : Z;
  label : string;
  description : string
}.

(** The loop of [find_nearest_scale]; [None] for a distance is
    [float("inf")]. *)
Fixpoint nearest_loop (n_int : Z) (scales : list (Z * (string * string)))
    (best_match : option scale_match) (best_dist : option Z)
  : option scale_match * option Z :=
  match scales with
  | [] => (best_match, best_dist)
  | (dim, (lbl, desc)) :: rest =>
      let dist := Z.abs (dim - n_int) in
      if match best_dist with
         | None => true
         | Some best => (dist <? best)%Z
         end
      then nearest_loop n_int rest
             (Some {| dimension := dim; label := lbl; description := desc |})
             (Some dist)
      else nearest_loop n_int rest best_match best_dist
  end.

Inductive nearest : Type :=
  | NearestError (msg : string)
  | Nearest (input_value phi_exponent : R) (nearest_integer_n : Z)
      (nearest_known_scale : option scale_match) (distance : option Z).

(** [find_nearest_scale(value)] *)
Definition find_nearest_scale (value : R) : result nearest :=
  if Rle_dec value 0 then Ok (NearestError "value must be > 0")
  else
    do lv <- py_log value ;
    do lphi <- py_log PHI ;
    do n_float <- py_div lv lphi ;
    let n_int := py_round_int n_float in
    let (best_match, best_dist) := nearest_loop n_int KNOWN_SCALES None None in
    Ok (Nearest value n_float n_int best_match best_dist).

(** *** Vocabulary of the statements *)

Definition known_dimensions : list Z := map fst KNOWN_SCALES.

End Ladder.

(** ** photosynthesis_constants.py: co2_factor, mof_score *)

Module PhotosynthesisConstants.
Import PyVal.
Local Open Scope Q_scope.



(** [entry.get(k, default)] read as a number. *)
Definition get_number (entry : dict) (k : string) (default : Q) : result Q :=
  match dict_get k entry with
  | Some v => ConstantsDB.as_number v
  | None => Ok default
  end.

(** [entry.get(k, False)] read as a truth value. *)
Definition get_flag (entry : dict) (k : string) : bool :=
  match dict_get k entry with
  | Some v => truthy v
  | None => false
  end.

(** [max(a, b)] of two numbers: [a] unless [b] is greater. *)
Definition py_max (a b : Q) : Q := if Qle_bool b a then a else b.

(** [mof_score(entry)] *)
Definition mof_score (entry : dict) : result Q :=
  do capacity <- get_number entry "co2_capacity_mmol_g" 0 ;
  do selectivity <- get_number entry "co2_n2_selectivity" 1 ;
  do thermal <- get_number entry "thermal_stability_c" 200 ;
  do stability <- SumRule.py_div thermal 600 ;
  do cost_relative <- get_number entry "cost_relative" 1 ;
  let cost := py_max cost_relative 0.01 in
  let abundant := if get_flag entry "abundant" then 1.5 else 1 in
  let healing := if get_flag entry "self_healing" then 1.2 else 1 in
  let water := if get_flag entry "water_stable" then 1.1 else 0.9 in
  SumRule.py_div (capacity * selectivity * stability * abundant * healing * water) cost.

(** The entry ["ZIF-8"] of [MOF_MATERIALS]. *)
Definition ZIF_8 : dict :=
  [("metal", PStr "Zn"); ("linker", PStr "2-methylimidazole");
   ("pore_nm", PFloat 0.34); ("co2_capacity_mmol_g", PFloat 1.2);
   ("co2_n2_selectivity", PFloat 15); ("thermal_stability_c", PFloat 550);
   ("water_stable", PBool true); ("abundant", PBool true);
   ("cost_relative", PFloat 1); ("self_healing", PBool false)].

End PhotosynthesisConstants.

(** ** constants_db.py: scorecard *)

Module Scorecard.
Import PyVal ConstantsDB.
Local Open Scope Q_scope.

(** A value that can be a dictionary key. *)
Definition hashable (v : pyval) : bool :=
  match v with
  | PList _ | PDict _ => false
  | _ => true
  end.

(** Equality of dictionary keys: numbers by value, whatever their type. *)
Definition key_eq (a b : pyval) : bool :=
  match a, b with
  | PNone, PNone => true
  | PStr s, PStr t => String.eqb s t
  | (PBool _ | PInt _ | PFloat _), (PBool _ | PInt _ | PFloat _) =>
      match as_number a, as_number b with
      | Ok x, Ok y => Qeq_bool x y
      | _, _ => false
      end
  | _, _ => false
  end.

(** [sectors[s] = sectors.get(s, 0) + 1]: a key that is there keeps its
    place and its first spelling. *)
Fixpoint count_key (s : pyval) (sectors : list (pyval * Z)) : list (pyval * Z) :=
  match sectors with
  | [] => [(s, (0 + 1)%Z)]
  | (k, n) :: rest =>
      if key_eq s k then (k, (n + 1)%Z) :: rest else (k, n) :: count_key s rest
  end.

(** The loop [for c in self._constants] of [scorecard]. *)
Fixpoint count_sectors (look : loc -> dict) (cs : list loc)
    (sectors : list (pyval * Z)) : result (list (pyval * Z)) :=
  match cs with
  | [] => Ok sectors
  | c :: rest =>
      do s <- getitem (look c) "sector" ;
      if hashable s then count_sectors look rest (count_key s sectors)
      else Raise TypeError
  end.

(** [[c["deviation_ppm"] for c in non_exact]], each with its value as a
    number. *)
Fixpoint ppm_values (look : loc -> dict) (cs : list loc) : result (list (pyval * Q)) :=
  match cs with
  | [] => Ok []
  | c :: rest =>
      do v <- getitem (look c) "deviation_ppm" ;
      do q <- as_number v ;
      do more <- ppm_values look rest ;
      Ok ((v, q) :: more)
  end.

(** [min] and [max] of a list that is not empty: an item replaces the
    best one so far only if it is strictly smaller (greater). *)
Fixpoint py_min (best : pyval * Q) (l : list (pyval * Q)) : pyval * Q :=
  match l with
  | [] => best
  | item :: rest =>
      if negb (Qle_bool (snd best) (snd item)) then py_min item rest
      else py_min best rest
  end.

Fixpoint py_max (best : pyval * Q) (l : list (pyval * Q)) : pyval * Q :=
  match l with
  | [] => best
  | item :: rest =>
      if negb (Qle_bool (snd item) (snd best)) then py_max item rest
      else py_max best rest
  end.

Record card : Type := {
  total_constants : Z;
  non_exact : Z;
  min_ppm : pyval;
  max_ppm : pyval;
  mean_ppm : pyval;
  sectors : list (pyval * Z)
}.

(** [ConstantsDB.scorecard()] *)
Definition scorecard (look : loc -> dict) (db : list loc) : result card :=
  do kept <- filter_py ConstantsDB.non_exact look db ;
  do ppms <- ppm_values look kept ;
  do counted <- count_sectors look db [] ;
  do mean <-
    match ppms with
    | [] => Ok (PInt 0)
    | _ :: _ =>
        do m <- SumRule.py_div (SumRule.py_sum (map snd ppms))
                  (inject_Z (Z.of_nat (length ppms))) ;
        Ok (PFloat (SumRule.py_round m 1))
    end ;
  Ok {| total_constants := Z.of_nat (length db);
        non_exact := Z.of_nat (length kept);
        min_ppm := match ppms with [] => PInt 0 | p :: rest => fst (py_min p rest) end;
        max_ppm := match ppms with [] => PInt 0 | p :: rest => fst (py_max p rest) end;
        mean_ppm := mean;
        sectors := counted |}.

(** *** Vocabulary of the statements *)

(** A record [scorecard] can read. *)
Definition countable (d : dict) : bool :=
  ConstantsTable.has_ppm d &&
  match dict_get "sector" d with
  | Some s => hashable s
  | None => false
  end.

Definition Zsum (l : list Z) : Z := fold_right Z.add 0%Z l.

End Scorecard.

Module CoreFacts.
Import Core.
Local Open Scope R_scope.

Lemma PHI_gt_1 : 1 < PHI.
Proof.
  unfold PHI.
  assert (H : 1 < sqrt 5).
  { rewrite <- sqrt_1 at 1. apply sqrt_lt_1; lra. }
  lra.
Qed.

Lemma PHI_pos : 0 < PHI.
Proof. pose proof PHI_gt_1. lra. Qed.

Lemma ln_PHI_pos : 0 < ln PHI.
Proof. rewrite <- ln_1. apply ln_increasing; [lra | apply PHI_gt_1]. Qed.

Lemma py_log_PHI : py_log PHI = Ok (ln PHI).
Proof.
  unfold py_log. destruct (Rle_dec PHI 0) as [H|H]; [|reflexivity].
  pose proof PHI_pos. lra.
Qed.

Lemma py_log_pos x : 0 < x -> py_log x = Ok (ln x).
Proof.
  intros Hx. unfold py_log. destruct (Rle_dec x 0); [lra | reflexivity].
Qed.

Lemma py_div_nonzero a b : b <> 0 -> py_div a b = Ok (a / b).
Proof.
  intros Hb. unfold py_div. destruct (Req_dec_T b 0); [contradiction | reflexivity].
Qed.

Lemma D_nonpos x : x <= 0 -> D x = Raise (ValueError "D(x) requires x > 0").
Proof.
  intros Hx. unfold D. destruct (Rle_dec x 0); [reflexivity | lra].
Qed.

Lemma D_pos x : 0 < x -> D x = Ok (- ln x / ln PHI).
Proof.
  intros Hx. unfold D. destruct (Rle_dec x 0); [lra|].
  rewrite (py_log_pos x Hx). cbn [bind]. rewrite py_log_PHI. cbn [bind].
  apply py_div_nonzero. pose proof ln_PHI_pos. lra.
Qed.

Lemma py_pow_PHI_pos d : 0 < py_pow PHI d.
Proof. unfold py_pow, Rpower. apply exp_pos. Qed.









(** **** Claim C8.
    [D] raises its domain error exactly when [x <= 0], and returns
    [-ln(x)/ln(PHI)] for every [x > 0]; the error is not caught on the way:
    [Energy], which calls [D], raises the same error. *)
Theorem D_domain_error (x : R) :
  (raises (D x) <-> x <= 0) /\
  (x <= 0 -> D x = Raise (ValueError "D(x) requires x > 0")) /\
  (0 < x -> D x = Ok (- ln x / ln PHI)) /\
  (x <= 0 -> Energy x = Raise (ValueError "D(x) requires x > 0")).
Proof.
  split; [|split; [|split]].
  - destruct (Rle_dec x 0) as [Hle|Hgt].
    + rewrite (D_nonpos x Hle). cbn. tauto.
    + rewrite (D_pos x) by lra. cbn. split; [contradiction | intros; lra].
  - apply D_nonpos.
  - apply D_pos.
  - intros Hle. unfold Energy. rewrite (D_nonpos x Hle). reflexivity.
Qed.

Lemma D_domain_error_witness :
  0 < 1 /\ D 1 = Ok (- ln 1 / ln PHI) /\
  -1 <= 0 /\ D (-1) = Raise (ValueError "D(x) requires x > 0").
Proof.
  split; [lra|]. split; [apply (D_domain_error 1); lra|].
  split; [lra | apply (D_domain_error (-1)); lra].
Defined.








End CoreFacts.

(** ** Facts about the validator *)

Module SumRuleFacts.
Import SumRule.
Local Open Scope Q_scope.

Lemma fold_left_Qplus_acc l : forall a, fold_left Qplus l a == a + Qsum l.
Proof.
  induction l as [|x l IH]; intros a; simpl.
  - ring.
  - rewrite IH. ring.
Qed.

Lemma py_sum_Qsum l : py_sum l == Qsum l.
Proof. unfold py_sum. rewrite fold_left_Qplus_acc. ring. Qed.

Lemma py_div_rational a b : ~ b == 0 -> py_div a b = Ok (a / b).
Proof.
  intros Hb. unfold py_div.
  destruct (Qeq_bool b 0) eqn:E; [|reflexivity].
  apply Qeq_bool_iff in E. contradiction.
Qed.

Lemma Qabs_nonzero e : ~ e == 0 -> ~ Qabs e == 0.
Proof.
  intros He Habs. apply He.
  revert Habs. apply Qabs_case; intros; lra.
Qed.

Lemma deviation_total actual expected :
  deviation actual expected = Ok (code_deviation actual expected).
Proof.
  unfold deviation, code_deviation.
  destruct (Qeq_bool expected 0) eqn:E; [reflexivity|].
  rewrite py_div_rational; [reflexivity|].
  apply Qabs_nonzero. intros H. apply Qeq_bool_iff in H. congruence.
Qed.



#[local] Instance round_half_even_comp : Proper (Qeq ==> eq) round_half_even.
Proof.
  intros x y H. unfold round_half_even.
  rewrite (Qfloor_comp x y H). now rewrite H.
Qed.


#[local] Instance code_deviation_comp : Proper (Qeq ==> eq ==> Qeq) code_deviation.
Proof.
  intros x y H e ? <-. unfold code_deviation.
  destruct (Qeq_bool e 0); now rewrite H.
Qed.




(** The code has no clamp: whatever positive [eps] is meant, the deviation
    differs from the specified one at the expected sum [eps / 2]. *)
Lemma validate_no_clamp (eps : Q) : 0 < eps ->
  exists dev,
    deviation (py_sum []) (eps / 2) = Ok dev /\
    ~ dev == spec_deviation eps (py_sum []) (eps / 2).
Proof.
  intros Heps. rewrite deviation_total. eexists. split; [reflexivity|].
  assert (Hhalf : 0 < eps / 2) by (apply Qlt_shift_div_l; lra).
  unfold code_deviation, spec_deviation, py_sum. cbn [fold_left].
  destruct (Qeq_bool (eps / 2) 0) eqn:E.
  { apply Qeq_bool_iff in E. lra. }
  rewrite (Qabs_pos (eps / 2)) by lra.
  rewrite (Qabs_neg (0 - eps / 2)) by lra.
  assert (Hle : eps / 2 <= eps) by (apply Qle_shift_div_r; lra).
  assert (Hmax : Qmax (eps / 2) eps == eps) by (apply Q.max_r; exact Hle).
  rewrite Hmax. intros H.
  assert (H1 : - (0 - eps / 2) / (eps / 2) == 1) by (field; lra).
  assert (H2 : - (0 - eps / 2) / eps == 1 # 2) by (field; lra).
  rewrite H1, H2 in H. discriminate H.
Qed.

Lemma validate_no_clamp_witness :
  0 < 1e-12 /\
  exists dev,
    deviation (py_sum []) (1e-12 / 2) = Ok dev /\
    ~ dev == spec_deviation 1e-12 (py_sum []) (1e-12 / 2).
Proof. split; [reflexivity | apply (validate_no_clamp 1e-12); reflexivity]. Defined.

End SumRuleFacts.

(** ** Facts about the adapters *)

Module AdaptersFacts.
Import PyVal Adapters.

Section Guard.

Variable calibration_analysis fusion_analysis : dict -> result AnalysisResult.
Variable analyze_cascade analyze_mof analyze_full : dict -> result AnalysisResult.
Variable py_format : pyval -> string.

Lemma contains_getitem d k v : dict_get k d = Some v ->
  contains k d = true /\ getitem d k = Ok v.
Proof. intros E. unfold contains, getitem. now rewrite E. Qed.

(** **** Claim C9.
    For each of the three adapters and every ingested record that carries an
    error marker, [analyze] returns, raising nothing, the result with
    [success] false, consistency score 0 and the error message as its only
    recommendation. *)
Theorem analyze_error_marker (a : adapter) (d_data : dict) (message : pyval) :
  dict_get "error" d_data = Some message ->
  exists r,
    analyze calibration_analysis fusion_analysis
      analyze_cascade analyze_mof analyze_full py_format a d_data = Ok r /\
    success r = false /\
    (consistency_score r == 0)%Q /\
    recommendations r = [message] /\
    data r = d_data /\ d_space_values r = PList [] /\ hierarchy r = [].
Proof.
  intros E. destruct (contains_getitem _ _ _ E) as [Hc Hg].
  exists (failure d_data (PList []) message).
  split; [|repeat split; reflexivity].
  destruct a; unfold analyze, calibration_analyze, fusion_analyze,
    photosynthesis_analyze; rewrite Hc, Hg; reflexivity.
Qed.

End Guard.

Lemma analyze_error_marker_witness :
  dict_get "error" no_readings = Some (PStr "No readings provided") /\
  exists r,
    analyze not_reached not_reached not_reached not_reached not_reached
      no_format CalibrationAdapter no_readings = Ok r /\
    success r = false /\
    (consistency_score r == 0)%Q /\
    recommendations r = [PStr "No readings provided"] /\
    data r = no_readings /\ d_space_values r = PList [] /\ hierarchy r = [].
Proof.
  split; [reflexivity|].
  apply (analyze_error_marker not_reached not_reached not_reached not_reached
           not_reached no_format CalibrationAdapter
           no_readings (PStr "No readings provided")).
  reflexivity.
Defined.

End AdaptersFacts.

(** ** Facts about the decomposer *)

Module DecomposerFacts.
Import PyVal Decomposer.
Local Open Scope Z_scope.

Lemma F_step j : F (S (S j)) = F (S j) + F j.
Proof. reflexivity. Qed.

Lemma fib_loop_F cnt : forall i, fib_loop cnt (F i) (F (S i)) = F (S i + cnt).
Proof.
  induction cnt as [|cnt IH]; intros i.
  - cbn [fib_loop]. f_equal. lia.
  - cbn [fib_loop]. rewrite (Z.add_comm (F i)), <- F_step, IH. f_equal. lia.
Qed.

Lemma fib_F j : fib (Z.of_nat j) = Ok (F j).
Proof.
  unfold fib.
  destruct (Z.ltb_spec (Z.of_nat j) 0) as [H|_]; [lia|].
  destruct (Z.leb_spec (Z.of_nat j) 1) as [H|H].
  - destruct j as [|[|j]]; [reflexivity | reflexivity | lia].
  - pose proof (fib_loop_F (Z.to_nat (Z.of_nat j - 1)) 0%nat) as E.
    cbn [F] in E. rewrite E. do 2 f_equal. lia.
Qed.

Lemma F_nonneg j : 0 <= F j /\ 0 <= F (S j).
Proof.
  induction j as [|j [IH1 IH2]]; [cbn; lia|].
  split; [exact IH2 | rewrite F_step; lia].
Qed.

(** From index 3 on the sequence grows at least linearly. *)
Lemma F_lower j : Z.of_nat j + 1 <= F (j + 2) /\ Z.of_nat j + 2 <= F (j + 3).
Proof.
  induction j as [|j [IH1 IH2]]; [cbn; lia|].
  split.
  - replace (S j + 2)%nat with (j + 3)%nat by lia. lia.
  - replace (S j + 3)%nat with (S (S (j + 2))) by lia.
    rewrite F_step. replace (S (j + 2)) with (j + 3)%nat by lia. lia.
Qed.

Lemma fib_from_3 k :
  3 <= k -> exists f, fib k = Ok f /\ k - 1 <= f /\ is_fibonacci f.
Proof.
  intros Hk. exists (F (Z.to_nat k)).
  rewrite <- (Z2Nat.id k) at 1 by lia. split; [apply fib_F|]. split.
  - pose proof (F_lower (Z.to_nat k - 3)) as [_ H].
    replace (Z.to_nat k - 3 + 3)%nat with (Z.to_nat k) in H by lia. lia.
  - exists (Z.to_nat k). reflexivity.
Qed.

Section Sorting.
Context {A : Type} (le : A -> A -> bool).
Hypothesis le_total : forall a b, le a b = false -> le b a = true.

Let before (a b : A) : Prop := le a b = true.

Lemma insert_by_Forall (P : A -> Prop) x l :
  P x -> Forall P l -> Forall P (insert_by le x l).
Proof.
  intros Hx Hl. induction Hl as [|y l Hy Hl IH]; cbn [insert_by].
  - constructor; [assumption | constructor].
  - destruct (le x y); repeat constructor; assumption.
Qed.

Lemma sort_by_Forall (P : A -> Prop) l :
  Forall P l -> Forall P (sort_by le l).
Proof.
  unfold sort_by. induction 1 as [|x l Hx Hl IH]; cbn [fold_right].
  - constructor.
  - apply insert_by_Forall; assumption.
Qed.

Lemma insert_by_HdRel a x l :
  before a x -> HdRel before a l -> HdRel before a (insert_by le x l).
Proof.
  intros Hax Hal. destruct l as [|y l]; cbn [insert_by].
  - constructor. assumption.
  - destruct (le x y); constructor; [assumption|].
    inversion Hal; assumption.
Qed.

Lemma insert_by_Sorted x l :
  Sorted before l -> Sorted before (insert_by le x l).
Proof.
  induction 1 as [|y l Hl IH Hy]; cbn [insert_by].
  - repeat constructor.
  - destruct (le x y) eqn:E.
    + constructor; [constructor; assumption | constructor; exact E].
    + constructor; [assumption|].
      apply insert_by_HdRel; [apply le_total; exact E | assumption].
Qed.

Lemma sort_by_Sorted l : Sorted before (sort_by le l).
Proof.
  unfold sort_by. induction l as [|x l IH]; cbn [fold_right].
  - constructor.
  - apply insert_by_Sorted. exact IH.
Qed.

Lemma insert_by_length x l : length (insert_by le x l) = S (length l).
Proof.
  induction l as [|y l IH]; cbn [insert_by]; [reflexivity|].
  destruct (le x y); cbn [length]; [reflexivity | now rewrite IH].
Qed.

Lemma sort_by_length l : length (sort_by le l) = length l.
Proof.
  unfold sort_by. induction l as [|x l IH]; cbn [fold_right]; [reflexivity|].
  rewrite insert_by_length. cbn [length]. now rewrite IH.
Qed.
End Sorting.

Lemma Zprod_app l1 l2 : Zprod (l1 ++ l2) = Zprod l1 * Zprod l2.
Proof.
  induction l1 as [|x l1 IH]; cbn [app Zprod fold_right].
  - fold (Zprod l2). lia.
  - fold (Zprod (l1 ++ l2)) (Zprod l1). rewrite IH. lia.
Qed.

Lemma Zprod_insert_by le x l : Zprod (insert_by le x l) = x * Zprod l.
Proof.
  induction l as [|y l IH]; cbn [insert_by]; [reflexivity|].
  destruct (le x y); [reflexivity|].
  change (y * Zprod (insert_by le x l) = x * (y * Zprod l)). rewrite IH. lia.
Qed.

Lemma Zprod_sort_by le l : Zprod (sort_by le l) = Zprod l.
Proof.
  induction l as [|x l IH]; [reflexivity|].
  change (Zprod (insert_by le x (sort_by le l)) = x * Zprod l).
  rewrite Zprod_insert_by, IH. reflexivity.
Qed.

Lemma fold_left_mul_acc l : forall a, fold_left Z.mul l a = a * Zprod l.
Proof.
  induction l as [|x l IH]; intros a; cbn [fold_left].
  - cbn. lia.
  - rewrite IH. change (Zprod (x :: l)) with (x * Zprod l). lia.
Qed.

Lemma py_product_Zprod l : py_product l = Zprod l.
Proof. unfold py_product. rewrite fold_left_mul_acc. lia. Qed.

Lemma Sorted_leb_le l : Sorted (fun a b => (a <=? b) = true) l -> Sorted Z.le l.
Proof.
  induction 1 as [|x l Hl IH Hx]; constructor; [assumption|].
  destruct Hx; constructor. now apply Z.leb_le.
Qed.

Lemma collect_fibs_total n fuel : forall k fibs seen,
  3 <= k -> Z.max 0 (n - k + 2) < Z.of_nat fuel ->
  Forall (candidate n) fibs ->
  exists fibs', collect_fibs fuel n k fibs seen = Some (Ok fibs') /\
                Forall (candidate n) fibs'.
Proof.
  induction fuel as [|fuel IH]; intros k fibs seen Hk Hfuel Hfibs.
  - exfalso. lia.
  - destruct (fib_from_3 k Hk) as (f & Ef & Hf & Hfib).
    cbn [collect_fibs]. rewrite Ef. cbn [lift fbind].
    destruct (Z.gtb_spec f n) as [Hgt|Hle].
    + exists fibs. split; [reflexivity | assumption].
    + destruct (existsb (Z.eqb f) seen).
      * apply IH; [lia | lia | assumption].
      * apply IH; [lia | lia |].
        apply Forall_app. split; [assumption|].
        constructor; [|constructor]. split; [lia | assumption].
Qed.

Lemma py_mod_nonzero a b : b <> 0 -> py_mod a b = Ok (a mod b).
Proof.
  intros Hb. unfold py_mod. destruct (Z.eqb_spec b 0); [contradiction | reflexivity].
Qed.

Lemma exact_quotient f r : 2 <= f -> 1 < r -> r mod f = 0 ->
  1 <= r / f < r /\ f * (r / f) = r.
Proof.
  intros Hf Hr Hm.
  pose proof (Z.div_mod r f ltac:(lia)) as E. rewrite Hm in E.
  split; [nia | lia].
Qed.

(** The inner loop ends within [remaining] steps and keeps
    [product(factors) * remaining]. *)
Lemma divide_out_total (P : Z -> Prop) f fuel : 2 <= f -> P f ->
  forall remaining factors,
    1 <= remaining < Z.of_nat fuel -> Forall P factors ->
    exists factors' remaining',
      divide_out fuel f remaining factors = Some (Ok (factors', remaining')) /\
      1 <= remaining' <= remaining /\
      Zprod factors' * remaining' = Zprod factors * remaining /\
      Forall P factors'.
Proof.
  intros Hf HPf. induction fuel as [|fuel IH]; intros remaining factors Hr HP.
  - exfalso. lia.
  - cbn [divide_out]. destruct (Z.gtb_spec remaining 1) as [Hgt|Hle].
    + rewrite py_mod_nonzero by lia. cbn [lift fbind].
      destruct (Z.eqb_spec (remaining mod f) 0) as [Hm|Hm].
      * destruct (exact_quotient f remaining Hf Hgt Hm) as [Hq Eq].
        destruct (IH (remaining / f) (factors ++ [f])) as (fs & r' & E & Hr' & Hprod & HP').
        { lia. }
        { apply Forall_app. split; [assumption | repeat constructor; assumption]. }
        exists fs, r'. split; [exact E|]. split; [lia|]. split; [|exact HP'].
        rewrite Hprod, Zprod_app. cbn [Zprod fold_right]. nia.
      * exists factors, remaining. repeat split; try lia; assumption.
    + exists factors, remaining. repeat split; try lia; assumption.
Qed.

Lemma greedy_total (P : Z -> Prop) fuel fibs :
  Forall (fun f => 2 <= f /\ P f) fibs ->
  forall remaining factors,
    1 <= remaining < Z.of_nat fuel -> Forall P factors ->
    exists factors' remaining',
      greedy fuel fibs remaining factors = Some (Ok (factors', remaining')) /\
      1 <= remaining' <= remaining /\
      Zprod factors' * remaining' = Zprod factors * remaining /\
      Forall P factors'.
Proof.
  induction 1 as [|f fibs [Hf HPf] Hfibs IH]; intros remaining factors Hr HP.
  - exists factors, remaining. cbn [greedy]. repeat split; try lia; assumption.
  - cbn [greedy].
    destruct (divide_out_total P f fuel Hf HPf remaining factors Hr HP)
      as (fs1 & r1 & E1 & Hr1 & Hp1 & HP1).
    rewrite E1. cbn [fbind fst snd].
    destruct (IH r1 fs1 ltac:(lia) HP1) as (fs2 & r2 & E2 & Hr2 & Hp2 & HP2).
    exists fs2, r2. split; [exact E2|]. split; [lia|]. split; [lia | exact HP2].
Qed.

Lemma Zgeb_total a b : (a >=? b) = false -> (b >=? a) = true.
Proof. rewrite !Z.geb_leb. intros H. apply Z.leb_gt in H. apply Z.leb_le. lia. Qed.

Lemma Zleb_total a b : (a <=? b) = false -> (b <=? a) = true.
Proof. intros H. apply Z.leb_gt in H. apply Z.leb_le. lia. Qed.

Lemma fibonacci_factors_nonpos n : n <= 0 ->
  fibonacci_factors n = Some (Ok (empty_record n)).
Proof.
  intros Hn. unfold fibonacci_factors, fibonacci_factors_fuel.
  destruct (Z.leb_spec n 0); [reflexivity | lia].
Qed.

Lemma fibonacci_factors_pos n : 1 <= n ->
  exists fs,
    fibonacci_factors n = Some (Ok (factor_record n fs)) /\
    Sorted Z.le fs /\
    Forall (candidate n) fs /\
    (Zprod fs | n).
Proof.
  intros Hn. unfold fibonacci_factors, fibonacci_factors_fuel.
  destruct (Z.leb_spec n 0) as [H|_]; [lia|].
  destruct (collect_fibs_total n (S (Z.to_nat n)) 3 [] [])
    as (fibs & Ec & Hfibs); [lia | lia | constructor |].
  rewrite Ec. cbn [fbind].
  destruct (greedy_total (candidate n) (S (Z.to_nat n)) (sort_by Z.geb fibs))
    with (remaining := n) (factors := @nil Z)
    as (fs & r & Eg & Hr & Hprod & HP).
  { apply sort_by_Forall.
    eapply Forall_impl; [exact Hfibs|].
    intros f Hf. split; [apply Hf | exact Hf]. }
  { lia. }
  { constructor. }
  rewrite Eg. cbn [fbind fst].
  exists (sort_by Z.leb fs). rewrite py_product_Zprod. split; [reflexivity|].
  split; [|split].
  - apply Sorted_leb_le, sort_by_Sorted, Zleb_total.
  - apply sort_by_Forall, HP.
  - rewrite Zprod_sort_by. exists r. cbn [Zprod fold_right] in Hprod. lia.
Qed.

(** *** gut_decomposition and hierarchy_rank *)

Lemma known_rep_facts den group form :
  known_rep den KNOWN_REPS = Some (group, form) ->
  1 <= den /\ ne_str (PStr group) "unknown" = true.
Proof.
  unfold KNOWN_REPS. cbn [known_rep].
  repeat match goal with
         | |- context [?a =? ?b] => destruct (Z.eqb_spec a b)
         end;
    intros E; inversion E; subst; split; (lia || reflexivity).
Qed.

Lemma gut_decomposition_nonpos den : den <= 0 ->
  gut_decomposition den = Some (Ok (gut_record den "unknown" PNone (empty_record den))).
Proof.
  intros Hd. unfold gut_decomposition.
  destruct (known_rep den KNOWN_REPS) as [[g f]|] eqn:E.
  - apply known_rep_facts in E. lia.
  - rewrite (fibonacci_factors_nonpos den Hd). reflexivity.
Qed.

(** The record of the guard has no ["exact"], which [hierarchy_rank] reads. *)
Lemma score_of_nonpos den :
  score_of (gut_record den "unknown" PNone (empty_record den)) = Raise (KeyError "exact").
Proof. reflexivity. Qed.

Lemma gut_decomposition_pos den : 1 <= den ->
  exists fs group form,
    gut_decomposition den = Some (Ok (gut_record den group form (factor_record den fs))) /\
    score_of (gut_record den group form (factor_record den fs))
      = Ok (spec_score den (Zprod fs =? den)) /\
    (group = "unknown" <-> known_rep den KNOWN_REPS = None) /\
    Sorted Z.le fs /\ Forall (candidate den) fs.
Proof.
  intros Hd. destruct (fibonacci_factors_pos den Hd) as (fs & Eff & Hs & Hc & _).
  unfold gut_decomposition, spec_score.
  destruct (known_rep den KNOWN_REPS) as [[g f]|] eqn:E.
  - exists fs, g, (PStr f). rewrite Eff. cbn [fbind].
    destruct (known_rep_facts den g f E) as [_ Hne].
    split; [reflexivity|]. split; [|split; [|split; assumption]].
    + unfold score_of, gut_record. cbn [getitem dict_get String.eqb Ascii.eqb Bool.eqb bind].
      cbn. cbn in Hne. rewrite Hne. reflexivity.
    + split; [|discriminate]. intros ->. discriminate Hne.
  - exists fs, "unknown", PNone. rewrite Eff. cbn [fbind].
    split; [reflexivity|]. split; [|split; [|split; assumption]].
    + unfold score_of, gut_record, factor_record. cbn.
      destruct (Zprod fs =? den); reflexivity.
    + split; reflexivity.
Qed.

Lemma rank_each_positive dens : Forall (fun d => 1 <= d) dens ->
  forall ranked, exists rs,
    rank_each dens ranked = Some (Ok (ranked ++ rs)) /\ Forall2 entry_for dens rs.
Proof.
  induction 1 as [|den dens Hd Hdens IH]; intros ranked.
  - exists []. cbn [rank_each]. rewrite app_nil_r. split; [reflexivity | constructor].
  - destruct (gut_decomposition_pos den Hd) as (fs & g & form & Eg & Es & Hg & Hs & Hc).
    cbn [rank_each]. rewrite Eg. cbn [fbind lift]. rewrite Es. cbn [fbind].
    match goal with
    | |- context [rank_each dens ?acc] => destruct (IH acc) as (rs & E & Hrs)
    end.
    exists (ranked_record den (spec_score den (Zprod fs =? den)) g form
              (factor_record den fs) :: rs).
    split.
    + rewrite E. rewrite <- app_assoc. reflexivity.
    + constructor; [|exact Hrs]. exists fs, g, form. repeat split; tauto || assumption.
Qed.

(** A denominator that is not positive stops the ranking with the
    [KeyError] of the missing ["exact"]. *)
Lemma rank_each_nonpositive dens : Exists (fun d => d <= 0) dens ->
  forall ranked, rank_each dens ranked = Some (Raise (KeyError "exact")).
Proof.
  induction dens as [|den dens IH]; intros Hex ranked; [inversion Hex|].
  cbn [rank_each]. destruct (Z_le_gt_dec den 0) as [Hle|Hgt].
  - rewrite (gut_decomposition_nonpos den Hle). cbn [fbind lift].
    rewrite score_of_nonpos. reflexivity.
  - destruct (gut_decomposition_pos den ltac:(lia)) as (fs & g & form & Eg & Es & _).
    rewrite Eg. cbn [fbind lift]. rewrite Es. cbn [fbind].
    apply IH. inversion Hex; subst; [lia | assumption].
Qed.

Lemma rank_key_entry den r : entry_for den r ->
  exists score, rank_key r = Ok (- score, den) /\
                getitem r "score" = Ok (PInt score) /\
                getitem r "denominator" = Ok (PInt den).
Proof.
  intros (fs & g & form & -> & _). eexists. repeat split; reflexivity.
Qed.

Lemma decorate_entries dens rs : Forall2 entry_for dens rs ->
  exists keyed,
    decorate rs = Ok keyed /\ map snd keyed = rs /\
    Forall (fun kr => exists s d, fst kr = (- s, d) /\
                        getitem (snd kr) "score" = Ok (PInt s) /\
                        getitem (snd kr) "denominator" = Ok (PInt d)) keyed.
Proof.
  induction 1 as [|den r dens rs Hr Hrs (keyed & E & Em & Hk)].
  - exists []. repeat split; constructor.
  - destruct (rank_key_entry den r Hr) as (score & Ek & Es & Ed).
    exists ((- score, den, r) :: keyed). cbn [decorate]. rewrite Ek. cbn [bind].
    rewrite E. cbn [bind]. split; [reflexivity|]. split.
    + cbn [map snd]. now rewrite Em.
    + constructor; [|exact Hk]. exists score, den. repeat split; assumption.
Qed.

Lemma key_le_total k1 k2 : key_le k1 k2 = false -> key_le k2 k1 = true.
Proof. unfold key_le. lia. Qed.

Lemma sort_by_Permutation {A : Type} (le : A -> A -> bool) l :
  Permutation l (sort_by le l).
Proof.
  assert (Hins : forall x l', Permutation (x :: l') (insert_by le x l')).
  { intros x l'. induction l' as [|y l' IH]; cbn [insert_by]; [reflexivity|].
    destruct (le x y); [reflexivity|].
    rewrite perm_swap. now apply perm_skip. }
  induction l as [|x l IH]; [constructor|].
  change (sort_by le (x :: l)) with (insert_by le x (sort_by le l)).
  rewrite <- Hins. now apply perm_skip.
Qed.

Lemma Sorted_keyed (keyed : list ((Z * Z) * dict)) :
  Forall (fun kr => exists s d, fst kr = (- s, d) /\
                      getitem (snd kr) "score" = Ok (PInt s) /\
                      getitem (snd kr) "denominator" = Ok (PInt d)) keyed ->
  Sorted (fun a b => key_le (fst a) (fst b) = true) keyed ->
  Sorted rank_before (map snd keyed).
Proof.
  intros Hall Hs. induction Hs as [|a l Hl IH Ha]; cbn [map]; [constructor|].
  inversion Hall as [|? ? Hq Hall']; subst.
  constructor; [apply IH; assumption|].
  destruct Ha as [|b l Hab]; cbn [map]; constructor.
  inversion Hall' as [|? ? Hqb _]; subst.
  destruct Hq as (s1 & d1 & E1 & Es1 & Ed1). destruct Hqb as (s2 & d2 & E2 & Es2 & Ed2).
  exists s1, d1, s2, d2. repeat split; try assumption.
  unfold key_le in Hab. rewrite E1, E2 in Hab. cbn [fst snd] in Hab. lia.
Qed.

(** On positive denominators [hierarchy_rank] does what is specified: one
    scored record per input, in rank order. *)
Lemma hierarchy_rank_positive dens : Forall (fun d => 1 <= d) dens ->
  exists rs out,
    hierarchy_rank dens = Some (Ok out) /\
    Forall2 entry_for dens rs /\
    Permutation rs out /\
    Sorted rank_before out.
Proof.
  intros Hpos. destruct (rank_each_positive dens Hpos []) as (rs & Er & Hrs).
  destruct (decorate_entries dens rs Hrs) as (keyed & Ed & Em & Hk).
  exists rs, (map snd (sort_by (fun a b => key_le (fst a) (fst b)) keyed)).
  unfold hierarchy_rank. rewrite Er. cbn [fbind app lift]. rewrite Ed. cbn [fbind].
  split; [reflexivity|]. split; [exact Hrs|]. split.
  - rewrite <- Em. apply Permutation_map, sort_by_Permutation.
  - apply Sorted_keyed.
    + apply sort_by_Forall. exact Hk.
    + apply sort_by_Sorted. intros a b. apply key_le_total.
Qed.

Lemma hierarchy_rank_nonpositive dens : Exists (fun d => d <= 0) dens ->
  hierarchy_rank dens = Some (Raise (KeyError "exact")).
Proof.
  intros Hex. unfold hierarchy_rank.
  rewrite (rank_each_nonpositive dens Hex []). reflexivity.
Qed.

(** **** Claim C6, as the code has it.
    For every integer [n >= 1], [fibonacci_factors(n)] returns a record whose
    [factors] are in ascending order, whose [product] is the product of the
    factors, whose [residual] is [n - product] and whose [exact] is
    [product == n]; every factor is a Fibonacci number between 2 and [n] and
    the product divides [n].  For [n <= 0] the record has the empty list of
    factors, [product] 0 and [residual] [n]. *)
Theorem fibonacci_factors_record (n : Z) :
  (n <= 0 ->
     exists d, fibonacci_factors n = Some (Ok d) /\
       getitem d "factors" = Ok (PList []) /\
       getitem d "product" = Ok (PInt 0) /\
       getitem d "residual" = Ok (PInt n)) /\
  (1 <= n ->
     exists d fs, fibonacci_factors n = Some (Ok d) /\
       getitem d "factors" = Ok (PList (map PInt fs)) /\
       Sorted Z.le fs /\
       getitem d "product" = Ok (PInt (Zprod fs)) /\
       getitem d "residual" = Ok (PInt (n - Zprod fs)) /\
       getitem d "exact" = Ok (PBool (Zprod fs =? n)) /\
       Forall (candidate n) fs /\ (Zprod fs | n)).
Proof.
  split; intros Hn.
  - exists (empty_record n). split; [apply fibonacci_factors_nonpos, Hn|].
    repeat split; reflexivity.
  - destruct (fibonacci_factors_pos n Hn) as (fs & E & Hs & Hc & Hdiv).
    exists (factor_record n fs), fs. split; [exact E|].
    repeat split; try reflexivity; assumption.
Qed.

Lemma fibonacci_factors_record_witness :
  1 <= 45 /\
  exists d fs, fibonacci_factors 45 = Some (Ok d) /\
    getitem d "factors" = Ok (PList (map PInt fs)) /\
    Sorted Z.le fs /\
    getitem d "product" = Ok (PInt (Zprod fs)) /\
    getitem d "residual" = Ok (PInt (45 - Zprod fs)) /\
    getitem d "exact" = Ok (PBool (Zprod fs =? 45)) /\
    Forall (candidate 45) fs /\ (Zprod fs | 45).
Proof.
  split; [lia | apply (proj2 (fibonacci_factors_record 45)); lia].
Defined.

(** Claim C6 as stated fails at [n = 0]: the record has [product] 0 although
    the product of its (empty) list of factors is 1, and it has no [exact]. *)
Lemma fibonacci_factors_zero_record :
  exists d, fibonacci_factors 0 = Some (Ok d) /\
    getitem d "factors" = Ok (PList (map PInt [])) /\
    getitem d "product" = Ok (PInt 0) /\
    Zprod [] <> 0 /\
    getitem d "exact" = Raise (KeyError "exact").
Proof.
  eexists. split; [reflexivity|]. repeat split; try reflexivity. discriminate.
Qed.

(** [gut_decomposition(45)] names the SO(10) adjoint, with the exact
    factorisation 3 * 3 * 5. *)
Example gut_decomposition_45 :
  gut_decomposition 45
  = Some (Ok (gut_record 45 "SO(10) adj" (PStr "F(4)^2 * F(5) = 45")
                (factor_record 45 [3; 3; 5]))).
Proof. reflexivity. Qed.

(** The greedy factorisation leaves a residual where no Fibonacci number
    divides: 7 has no factor among 2, 3, 5. *)
Example fibonacci_factors_7 :
  fibonacci_factors 7 = Some (Ok (factor_record 7 [])).
Proof. reflexivity. Qed.

(** A ranking: the known dimensions first, then the exact products, then
    the rest, each group by ascending denominator. *)
Example hierarchy_rank_sample :
  exists out,
    hierarchy_rank [45; 7; 10; 3; 16] = Some (Ok out) /\
    map (fun r => (dict_get "denominator" r, dict_get "score" r)) out
    = [ (Some (PInt 3), Some (PInt 3)); (Some (PInt 45), Some (PInt 3));
        (Some (PInt 10), Some (PInt 2)); (Some (PInt 16), Some (PInt 2));
        (Some (PInt 7), Some (PInt 1)) ].
Proof. eexists. split; reflexivity. Qed.

(** **** Claim C7 at the denominator 0.
    [hierarchy_rank([0])] does not return: reading ["exact"] from the record
    of the guard of [fibonacci_factors] raises [KeyError]. *)
Theorem hierarchy_rank_zero_raises :
  hierarchy_rank [0] = Some (Raise (KeyError "exact")).
Proof. reflexivity. Qed.

End DecomposerFacts.

(** ** Facts about the constants table *)

Module ConstantsDBFacts.
Import PyVal ConstantsDB.
Local Open Scope nat_scope.

Lemma deref_app_l h new l : l < length h -> deref (h ++ new) l = deref h l.
Proof. intros Hl. unfold deref. now rewrite lookup_app_l. Qed.

Lemma deref_app_new h new i :
  deref (h ++ new) (length h + i) = default [] (new !! i).
Proof.
  unfold deref. rewrite lookup_app_r by lia.
  now replace (length h + i - length h) with i by lia.
Qed.

Lemma deref_mutate_other l f h c : c <> l -> deref (mutate l f h) c = deref h c.
Proof.
  intros Hc. unfold deref, mutate. now rewrite list_lookup_alter_ne.
Qed.

Lemma mutate_length l f h : length (mutate l f h) = length h.
Proof. unfold mutate. apply length_alter. Qed.

Lemma agree_cons c cs look1 look2 :
  agree (c :: cs) look1 look2 -> look1 c = look2 c /\ agree cs look1 look2.
Proof.
  intros H. split; [apply H; left|]. intros c' Hc'. apply H. now right.
Qed.

Lemma agree_sub cs cs' look1 look2 :
  agree cs look1 look2 -> Forall (fun c => c ∈ cs) cs' -> agree cs' look1 look2.
Proof.
  intros H Hsub c Hc. apply H. rewrite Forall_forall in Hsub. now apply Hsub.
Qed.

(** *** The copies *)

Lemma copy_all_spec cs : forall h, Forall (fun c => c < length h) cs ->
  copy_all cs h = (seq (length h) (length cs), h ++ map (deref h) cs).
Proof.
  induction cs as [|c cs IH]; intros h Hwf; cbn [copy_all].
  - now rewrite app_nil_r.
  - inversion Hwf as [|? ? Hc Hcs]; subst. unfold dict_copy, alloc.
    rewrite IH.
    + rewrite length_app. cbn [length map seq]. rewrite Nat.add_1_r.
      rewrite <- app_assoc. cbn [app]. do 3 f_equal.
      apply map_ext_Forall. eapply Forall_impl; [exact Hcs|].
      intros c' Hc'. now apply deref_app_l.
    + rewrite length_app. cbn [length].
      eapply Forall_impl; [exact Hcs|]. intros c' Hc'. cbn beta in *. lia.
Qed.

Lemma map_deref_new h new :
  map (deref (h ++ new)) (seq (length h) (length new)) = new.
Proof.
  apply list_eq. intros i. rewrite list_lookup_fmap.
  destruct (decide (i < length new)) as [Hi|Hi].
  - rewrite lookup_seq_lt by assumption. cbn [fmap option_fmap option_map].
    rewrite deref_app_new.
    destruct (lookup_lt_is_Some_2 new i Hi) as [d Hd]. now rewrite Hd.
  - rewrite lookup_seq_ge by lia. symmetry. apply lookup_ge_None. lia.
Qed.

(** *** The selection reads the stored records only *)

Lemma filter_py_agree p look1 look2 cs : agree cs look1 look2 ->
  filter_py p look1 cs = filter_py p look2 cs.
Proof.
  induction cs as [|c cs IH]; intros H; [reflexivity|].
  apply agree_cons in H as [Hc Hcs]. cbn [filter_py]. now rewrite Hc, IH.
Qed.

Lemma filter_py_sub p look cs rs : filter_py p look cs = Ok rs ->
  Forall (fun c => c ∈ cs) rs.
Proof.
  revert rs. induction cs as [|c cs IH]; intros rs; cbn [filter_py].
  - intros [= <-]. constructor.
  - destruct (p (look c)) as [b|e]; cbn [bind]; [|discriminate].
    destruct (filter_py p look cs) as [rest|e]; cbn [bind]; [|discriminate].
    intros [= <-]. specialize (IH rest eq_refl).
    assert (Hrest : Forall (fun c' => c' ∈ c :: cs) rest).
    { eapply Forall_impl; [exact IH|]. intros c' Hc'. now right. }
    destruct b; [constructor; [left | exact Hrest] | exact Hrest].
Qed.

Lemma select_get_agree name look1 look2 cs : agree cs look1 look2 ->
  select_get look1 name cs = select_get look2 name cs.
Proof.
  induction cs as [|c cs IH]; intros H; [reflexivity|].
  apply agree_cons in H as [Hc Hcs]. cbn [select_get]. now rewrite Hc, IH.
Qed.

Lemma select_get_sub name look cs c : select_get look name cs = Ok (Some c) ->
  c ∈ cs.
Proof.
  induction cs as [|c' cs IH]; cbn [select_get]; [discriminate|].
  destruct (getitem (look c') "name") as [v|e]; cbn [bind]; [|discriminate].
  destruct (eq_str v name).
  - intros [= <-]. left.
  - intros H. right. now apply IH.
Qed.

Lemma ppm_keys_agree look1 look2 cs : agree cs look1 look2 ->
  ppm_keys look1 cs = ppm_keys look2 cs.
Proof.
  induction cs as [|c cs IH]; intros H; [reflexivity|].
  apply agree_cons in H as [Hc Hcs]. cbn [ppm_keys]. now rewrite Hc, IH.
Qed.

Lemma ppm_keys_snd look cs keyed : ppm_keys look cs = Ok keyed ->
  map snd keyed = cs.
Proof.
  revert keyed. induction cs as [|c cs IH]; intros keyed; cbn [ppm_keys].
  - now intros [= <-].
  - destruct (getitem (look c) "deviation_ppm") as [v|e]; cbn [bind]; [|discriminate].
    destruct (as_number v) as [q|e]; cbn [bind]; [|discriminate].
    destruct (ppm_keys look cs) as [rest|e]; cbn [bind]; [|discriminate].
    intros [= <-]. cbn [map snd]. now rewrite (IH rest eq_refl).
Qed.

Lemma slice_to_sub {A : Type} n (l : list A) : Forall (fun x => x ∈ l) (slice_to n l).
Proof.
  apply Forall_forall. intros x Hx. unfold slice_to in Hx.
  destruct (n <? 0)%Z; apply elem_of_take in Hx as (i & Hi & _);
    eapply list_elem_of_lookup_2; exact Hi.
Qed.

Lemma Forall_elem_trans (l1 l2 l3 : list loc) :
  Forall (fun c => c ∈ l2) l1 -> Forall (fun c => c ∈ l3) l2 ->
  Forall (fun c => c ∈ l3) l1.
Proof.
  intros H12 H23. eapply Forall_impl; [exact H12|].
  intros c Hc. rewrite Forall_forall in H23. now apply H23.
Qed.

Lemma Forall_elem_refl (l : list loc) : Forall (fun c => c ∈ l) l.
Proof. now apply Forall_forall. Qed.

Lemma select_search_agree sector query look1 look2 cs : agree cs look1 look2 ->
  select_search look1 sector query cs = select_search look2 sector query cs.
Proof.
  intros H. unfold select_search.
  assert (E : forall p, filter_py p look1 cs = filter_py p look2 cs)
    by (intros p; now apply filter_py_agree).
  destruct (given sector) as [s|].
  - rewrite E.
    destruct (filter_py _ look2 cs) as [rs|e] eqn:Ers; cbn [bind]; [|reflexivity].
    destruct (given query) as [qs|]; [|reflexivity].
    apply filter_py_agree. eapply agree_sub; [exact H|].
    eapply filter_py_sub. exact Ers.
  - cbn [bind]. destruct (given query) as [qs|]; [apply E | reflexivity].
Qed.

Lemma select_search_sub sector query look cs rs :
  select_search look sector query cs = Ok rs -> Forall (fun c => c ∈ cs) rs.
Proof.
  unfold select_search.
  destruct (given sector) as [s|].
  - destruct (filter_py _ look cs) as [r1|e] eqn:E1; cbn [bind]; [|discriminate].
    apply filter_py_sub in E1.
    destruct (given query) as [qs|].
    + intros E2. apply filter_py_sub in E2. eapply Forall_elem_trans; eassumption.
    + now intros [= <-].
  - cbn [bind]. destruct (given query) as [qs|].
    + apply filter_py_sub.
    + intros [= <-]. apply Forall_elem_refl.
Qed.

Lemma select_best_agree n look1 look2 cs : agree cs look1 look2 ->
  select_best look1 n cs = select_best look2 n cs.
Proof.
  intros H. unfold select_best. rewrite (filter_py_agree _ _ _ _ H).
  destruct (filter_py non_exact look2 cs) as [kept|e] eqn:Ek; cbn [bind]; [|reflexivity].
  rewrite (ppm_keys_agree look1 look2 kept); [reflexivity|].
  eapply agree_sub; [exact H|]. eapply filter_py_sub. exact Ek.
Qed.

Lemma select_best_sub n look cs rs :
  select_best look n cs = Ok rs -> Forall (fun c => c ∈ cs) rs.
Proof.
  unfold select_best.
  destruct (filter_py non_exact look cs) as [kept|e] eqn:Ek; cbn [bind]; [|discriminate].
  destruct (ppm_keys look kept) as [keyed|e] eqn:Eq; cbn [bind]; [|discriminate].
  intros [= <-]. apply filter_py_sub in Ek. apply ppm_keys_snd in Eq.
  eapply Forall_elem_trans; [apply slice_to_sub|].
  eapply Forall_elem_trans; [|exact Ek].
  apply Forall_forall. intros c Hc. rewrite <- Eq.
  apply list_elem_of_In. apply list_elem_of_In in Hc.
  eapply Permutation_in; [|exact Hc].
  apply Permutation_map. symmetry. apply DecomposerFacts.sort_by_Permutation.
Qed.

Lemma select_agree q look1 look2 db : agree db look1 look2 ->
  select look1 q db = select look2 q db.
Proof.
  intros H. destruct q as [name|sector query|n]; cbn [select].
  - now rewrite (select_get_agree name look1 look2 db H).
  - now rewrite (select_search_agree sector query look1 look2 db H).
  - now rewrite (select_best_agree n look1 look2 db H).
Qed.

Lemma select_sub q look db a : select look q db = Ok a ->
  Forall (fun c => c ∈ db) (answer_list a).
Proof.
  destruct q as [name|sector query|n]; cbn [select].
  - destruct (select_get look name db) as [[c|]|e] eqn:E; cbn [bind]; intros [= <-].
    + cbn [answer_list]. constructor; [|constructor]. eapply select_get_sub, E.
    + constructor.
  - destruct (select_search look sector query db) as [rs|e] eqn:E; cbn [bind];
      intros [= <-]. cbn [answer_list]. eapply select_search_sub, E.
  - destruct (select_best look n db) as [rs|e] eqn:E; cbn [bind];
      intros [= <-]. cbn [answer_list]. eapply select_best_sub, E.
Qed.

(** *** A query allocates its copies and touches nothing else *)

Lemma answer_map_agree {B : Type} (f g : loc -> B) a :
  (forall c, c ∈ answer_list a -> f c = g c) -> answer_map f a = answer_map g a.
Proof.
  intros H. destruct a as [[c|]|cs]; cbn [answer_map option_map answer_list] in *.
  - now rewrite (H c) by left.
  - reflexivity.
  - f_equal. apply map_ext_Forall, Forall_forall. exact H.
Qed.

Lemma copy_answer_spec a h : Forall (fun c => c < length h) (answer_list a) ->
  exists a',
    copy_answer a h = (a', h ++ map (deref h) (answer_list a)) /\
    answer_list a' = seq (length h) (length (answer_list a)) /\
    answer_map (deref (h ++ map (deref h) (answer_list a))) a'
      = answer_map (deref h) a.
Proof.
  intros Hwf. destruct a as [[c|]|cs]; cbn [copy_answer answer_list] in *.
  - exists (One (Some (length h))). unfold dict_copy, alloc. cbn [map].
    split; [reflexivity|]. split; [reflexivity|].
    cbn [answer_map option_map]. do 2 f_equal.
    rewrite <- (Nat.add_0_r (length h)). now rewrite deref_app_new.
  - exists (One None). cbn [map]. now rewrite app_nil_r.
  - exists (Many (seq (length h) (length cs))). rewrite (copy_all_spec cs h Hwf).
    split; [reflexivity|]. split; [reflexivity|].
    cbn [answer_map]. f_equal.
    rewrite <- (length_map (deref h) cs) at 1. apply map_deref_new.
Qed.

Lemma selected_allocated db h cs : well_formed db h ->
  Forall (fun c => c ∈ db) cs -> Forall (fun c => c < length h) cs.
Proof.
  intros Hwf Hsub. eapply Forall_impl; [exact Hsub|].
  intros c Hc. unfold well_formed in Hwf. rewrite Forall_forall in Hwf. now apply Hwf.
Qed.

Lemma run_query_spec db q h : well_formed db h ->
  match select (deref h) q db with
  | Raise e => run_query db q h = (Raise e, h)
  | Ok a =>
      Forall (fun c => c ∈ db) (answer_list a) /\
      exists a',
        run_query db q h = (Ok a', h ++ map (deref h) (answer_list a)) /\
        answer_list a' = seq (length h) (length (answer_list a)) /\
        answer_map (deref (h ++ map (deref h) (answer_list a))) a'
          = answer_map (deref h) a
  end.
Proof.
  intros Hwf. unfold run_query.
  destruct (select (deref h) q db) as [a|e] eqn:E; [|reflexivity].
  pose proof (select_sub q _ db a E) as Hsub. split; [exact Hsub|].
  destruct (copy_answer_spec a h (selected_allocated db h _ Hwf Hsub))
    as (a' & Ec & El & Em).
  exists a'. rewrite Ec. now repeat split.
Qed.

(** The value of a query is a function of the stored records. *)
Lemma observe_run_query db q h : well_formed db h ->
  observe (run_query db q h)
  = (do a <- select (deref h) q db ; Ok (answer_map (deref h) a)).
Proof.
  intros Hwf. pose proof (run_query_spec db q h Hwf) as H.
  destruct (select (deref h) q db) as [a|e]; cbn [bind].
  - destruct H as (_ & a' & E & _ & Em). rewrite E. unfold observe. cbn [fst snd].
    now rewrite Em.
  - now rewrite H.
Qed.

Lemma run_query_extends db q h : well_formed db h ->
  exists new, snd (run_query db q h) = h ++ new.
Proof.
  intros Hwf. pose proof (run_query_spec db q h Hwf) as H.
  destruct (select (deref h) q db) as [a|e].
  - destruct H as (_ & a' & E & _). rewrite E. eexists. reflexivity.
  - rewrite H. exists []. cbn [snd]. now rewrite app_nil_r.
Qed.

Lemma preserved_well_formed db h0 h :
  well_formed db h0 -> preserved db h0 h -> well_formed db h.
Proof.
  intros Hwf [Hlen _]. eapply Forall_impl; [exact Hwf|].
  intros c Hc. cbn beta in *. lia.
Qed.

Lemma ask_preserved db h0 h q :
  well_formed db h0 -> preserved db h0 h ->
  preserved db h0 (snd (run_query db q h)).
Proof.
  intros Hwf0 Hp. pose proof (preserved_well_formed db h0 h Hwf0 Hp) as Hwf.
  destruct Hp as [Hlen Hag].
  destruct (run_query_extends db q h Hwf) as [new ->]. split.
  - rewrite length_app. lia.
  - intros c Hc. rewrite deref_app_l; [now apply Hag|].
    unfold well_formed in Hwf. rewrite Forall_forall in Hwf. now apply Hwf.
Qed.

Lemma mutate_preserved db h0 h l f :
  well_formed db h0 -> preserved db h0 h -> length h0 <= l ->
  preserved db h0 (mutate l f h).
Proof.
  intros Hwf0 [Hlen Hag] Hl. split; [now rewrite mutate_length|].
  intros c Hc. rewrite deref_mutate_other; [now apply Hag|].
  unfold well_formed in Hwf0. rewrite Forall_forall in Hwf0.
  specialize (Hwf0 c Hc). cbn beta in Hwf0. lia.
Qed.

(** What a query hands out lies past the heap it ran on. *)
Lemma returned_fresh db q h : well_formed db h ->
  Forall (fun l => length h <= l) (returned (fst (run_query db q h))).
Proof.
  intros Hwf. pose proof (run_query_spec db q h Hwf) as H.
  destruct (select (deref h) q db) as [sel|e].
  - destruct H as (_ & a' & E & El & _). rewrite E. cbn [fst returned].
    rewrite El. apply Forall_forall. intros l Hl. apply elem_of_seq in Hl. lia.
  - rewrite H. constructor.
Qed.

Lemma run_steps_preserved db h0 steps : well_formed db h0 ->
  forall h held,
    preserved db h0 h -> Forall (fun l => length h0 <= l) held ->
    caller_ok db h held steps = true ->
    preserved db h0 (run_steps db steps h).
Proof.
  intros Hwf0. induction steps as [|[q|l f] steps IH]; intros h held Hp Hheld Hok.
  - exact Hp.
  - cbn [caller_ok] in Hok. cbn [run_steps fold_left run_step].
    apply (IH _ _ (ask_preserved db h0 h q Hwf0 Hp)) in Hok; [exact Hok|].
    apply Forall_app. split; [exact Hheld|].
    pose proof (returned_fresh db q h (preserved_well_formed db h0 h Hwf0 Hp)) as Hf.
    eapply Forall_impl; [exact Hf|]. intros l Hl. cbn beta in *.
    destruct Hp as [Hlen _]. lia.
  - cbn [caller_ok] in Hok. apply andb_prop in Hok as [Hin Hok].
    cbn [run_steps fold_left run_step].
    apply existsb_exists in Hin as (l' & Hl' & El). apply Nat.eqb_eq in El. subst l'.
    rewrite Forall_forall in Hheld.
    pose proof (Hheld l (proj2 (list_elem_of_In _ _) Hl')) as Hl. cbn beta in Hl.
    apply (IH _ held (mutate_preserved db h0 h l f Hwf0 Hp Hl)); [|exact Hok].
    now apply Forall_forall.
Qed.

Lemma returned_are_copies db q h a h1 : well_formed db h ->
  run_query db q h = (Ok a, h1) ->
  Forall (fun l => (l ∉ db) /\ length h <= l < length h1 /\
                   exists c, c ∈ db /\ deref h1 l = deref h c) (answer_list a).
Proof.
  intros Hwf E. pose proof (run_query_spec db q h Hwf) as H.
  destruct (select (deref h) q db) as [sel|e]; [|rewrite H in E; discriminate].
  destruct H as (Hsub & a' & E' & El & _). rewrite E' in E.
  injection E as <- <-. rewrite El. apply Forall_forall. intros l Hl.
  apply elem_of_seq in Hl. rewrite length_app, length_map.
  split; [|split; [lia|]].
  - intros Hdb. unfold well_formed in Hwf. rewrite Forall_forall in Hwf.
    specialize (Hwf l Hdb). cbn beta in Hwf. lia.
  - replace l with (length h + (l - length h)) by lia. rewrite deref_app_new.
    destruct (lookup_lt_is_Some_2 (answer_list sel) (l - length h)) as [c Hc]; [lia|].
    exists c. split.
    + rewrite Forall_forall in Hsub. apply Hsub.
      eapply list_elem_of_lookup_2. exact Hc.
    + change (map (deref h) (answer_list sel)) with (deref h <$> answer_list sel).
      now rewrite list_lookup_fmap, Hc.
Qed.

Lemma preserved_refl db h : preserved db h h.
Proof. split; [lia | intros c _; reflexivity]. Qed.

(** **** Claim C10.
    Let the table [db] be stored in the heap [h], its records holding
    scalars as those [_entry] builds.  After any sequence of queries and of
    mutations by the caller of records that queries returned, every stored
    record is as it was, and every query ([get], [search],
    [best_predictions]) returns a result equal to the one it returns on [h];
    and the records a query returns are new objects, not stored ones, each
    the copy of a stored record. *)
Theorem queries_return_fresh_copies
    (db : list loc) (h : heap) (steps : list step) (q : query) :
  well_formed db h -> scalar_records db h -> caller_ok db h [] steps = true ->
  (forall c, c ∈ db -> deref (run_steps db steps h) c = deref h c) /\
  observe (run_query db q (run_steps db steps h)) = observe (run_query db q h) /\
  (forall a h1, run_query db q h = (Ok a, h1) ->
     Forall (fun l => (l ∉ db) /\ length h <= l < length h1 /\
                      exists c, c ∈ db /\ deref h1 l = deref h c) (answer_list a)).
Proof.
  intros Hwf _ Hsteps.
  pose proof (run_steps_preserved db h steps Hwf h [] (preserved_refl db h)
                (List.Forall_nil _) Hsteps) as Hp.
  pose proof (preserved_well_formed db h _ Hwf Hp) as Hwf'.
  destruct Hp as [_ Hag]. split; [exact Hag|]. split.
  - rewrite !observe_run_query by assumption.
    rewrite (select_agree q _ _ db Hag).
    destruct (select (deref h) q db) as [a|e] eqn:E; cbn [bind]; [|reflexivity].
    f_equal. apply answer_map_agree. intros c Hc. apply Hag.
    pose proof (select_sub q _ db a E) as Hsub. rewrite Forall_forall in Hsub.
    now apply Hsub.
  - intros a h1. now apply returned_are_copies.
Qed.

Lemma sample_well_formed : well_formed sample_db sample_heap.
Proof. unfold well_formed, sample_db, sample_heap. repeat constructor. Qed.

Lemma sample_scalar : scalar_records sample_db sample_heap.
Proof. unfold scalar_records, sample_db, sample_heap. repeat constructor. Qed.

Lemma queries_return_fresh_copies_witness :
  well_formed sample_db sample_heap /\
  scalar_records sample_db sample_heap /\
  caller_ok sample_db sample_heap [] sample_caller = true /\
  observe (run_query sample_db (BestPredictions 2)
             (run_steps sample_db sample_caller sample_heap))
  = observe (run_query sample_db (BestPredictions 2) sample_heap).
Proof.
  split; [exact sample_well_formed|]. split; [exact sample_scalar|].
  split; [reflexivity|].
  apply (queries_return_fresh_copies sample_db sample_heap sample_caller
           (BestPredictions 2) sample_well_formed sample_scalar eq_refl).
Defined.

(** The two best of the sample, seen after the caller has run. *)
Example sample_best_predictions :
  observe (run_query sample_db (BestPredictions 2)
             (run_steps sample_db sample_caller sample_heap))
  = Ok (Many [deref sample_heap 1; deref sample_heap 3]).
Proof. reflexivity. Qed.

End ConstantsDBFacts.

(** ** Facts about the sequences *)

Module SequencesFacts.
Import PyVal Decomposer Sequences DecomposerFacts.
Local Open Scope Z_scope.

(** The loop is linear in its start values. *)
Lemma fib_loop_linear cnt : forall a b,
  fib_loop cnt a b = a * F cnt + b * F (S cnt).
Proof.
  induction cnt as [|cnt IH]; intros a b.
  - cbn. lia.
  - cbn [fib_loop]. rewrite IH, (F_step cnt). lia.
Qed.

Lemma fib_nonneg_value n : 0 <= n -> fib n = Ok (F (Z.to_nat n)).
Proof. intros Hn. rewrite <- (Z2Nat.id n) at 1 by lia. apply fib_F. Qed.

(** **** Extra X1.
    [fib] raises [ValueError] exactly on negative arguments; on the others
    it is the Fibonacci sequence: [fib(0) = 0], [fib(1) = 1] and
    [fib(n + 2) = fib(n + 1) + fib(n)]. *)
Theorem fib_sequence :
  fib 0 = Ok 0 /\ fib 1 = Ok 1 /\
  forall n,
    (n < 0 -> fib n = Raise (ValueError "fib(n) requires n >= 0")) /\
    (0 <= n -> exists a b,
       fib n = Ok a /\ fib (n + 1) = Ok b /\ fib (n + 2) = Ok (b + a) /\
       0 <= a <= b + a).
Proof.
  split; [reflexivity|]. split; [reflexivity|]. intros n. split.
  - intros Hn. unfold fib. destruct (Z.ltb_spec n 0); [reflexivity | lia].
  - intros Hn. exists (F (Z.to_nat n)), (F (S (Z.to_nat n))).
    rewrite !fib_nonneg_value by lia.
    replace (Z.to_nat (n + 1)) with (S (Z.to_nat n)) by lia.
    replace (Z.to_nat (n + 2)) with (S (S (Z.to_nat n))) by lia.
    rewrite F_step. pose proof (F_nonneg (Z.to_nat n)).
    repeat split; try reflexivity; lia.
Qed.

Lemma fib_sequence_witness :
  0 <= 8 /\ exists a b,
    fib 8 = Ok a /\ fib (8 + 1) = Ok b /\ fib (8 + 2) = Ok (b + a) /\
    0 <= a <= b + a.
Proof. split; [lia | apply (proj2 (proj2 (proj2 fib_sequence) 8)); lia]. Defined.

(** The table holds what the loop computes. *)
Lemma lucas_loop n : lucas n = fib_loop (Z.to_nat (n - 1)) 2 1.
Proof.
  unfold lucas.
  destruct ((1 <=? n) && (n <=? Z.of_nat (length LUCAS_NUMBERS))) eqn:E;
    [|reflexivity].
  apply andb_prop in E as [H1 H2].
  apply Z.leb_le in H1. apply Z.leb_le in H2. cbn in H2.
  assert (Hn : n = 1 \/ n = 2 \/ n = 3 \/ n = 4 \/ n = 5 \/ n = 6 \/ n = 7 \/
               n = 8 \/ n = 9 \/ n = 10 \/ n = 11 \/ n = 12) by lia.
  repeat (destruct Hn as [->|Hn]; [reflexivity|]). subst n. reflexivity.
Qed.

(** **** Extra X2.
    [lucas] is the Lucas sequence on [n >= 1]: [lucas(1) = 1],
    [lucas(2) = 3] and [lucas(n + 2) = lucas(n + 1) + lucas(n)], across the
    end of the table at 12; for [n <= 0] it returns 1 and raises nothing. *)
Theorem lucas_sequence :
  lucas 1 = 1 /\ lucas 2 = 3 /\
  forall n,
    (1 <= n -> lucas (n + 2) = lucas (n + 1) + lucas n) /\
    (n <= 0 -> lucas n = 1).
Proof.
  split; [reflexivity|]. split; [reflexivity|]. intros n. split; intros Hn.
  - rewrite !lucas_loop, !fib_loop_linear.
    replace (Z.to_nat (n + 2 - 1)) with (S (S (Z.to_nat (n - 1)))) by lia.
    replace (Z.to_nat (n + 1 - 1)) with (S (Z.to_nat (n - 1))) by lia.
    rewrite !F_step. lia.
  - rewrite lucas_loop. replace (Z.to_nat (n - 1)) with 0%nat by lia. reflexivity.
Qed.

Lemma lucas_sequence_witness :
  1 <= 11 /\ lucas (11 + 2) = lucas (11 + 1) + lucas 11.
Proof. split; [lia | apply (proj2 (proj2 lucas_sequence) 11); lia]. Defined.

(** **** Extra X3.
    For every [n >= 1], [lucas(n) = fib(n - 1) + fib(n + 1)]. *)
Theorem lucas_fib (n : Z) : 1 <= n ->
  exists a b, fib (n - 1) = Ok a /\ fib (n + 1) = Ok b /\ lucas n = a + b.
Proof.
  intros Hn. exists (F (Z.to_nat (n - 1))), (F (Z.to_nat (n + 1))).
  rewrite !fib_nonneg_value by lia. split; [reflexivity|]. split; [reflexivity|].
  rewrite lucas_loop, fib_loop_linear.
  replace (Z.to_nat (n + 1)) with (S (S (Z.to_nat (n - 1)))) by lia.
  rewrite F_step. lia.
Qed.

Lemma lucas_fib_witness :
  1 <= 12 /\
  exists a b, fib (12 - 1) = Ok a /\ fib (12 + 1) = Ok b /\ lucas 12 = a + b.
Proof. split; [lia | apply (lucas_fib 12); lia]. Defined.

Lemma mirror_involution x : mirror (mirror x) = x.
Proof. unfold mirror. lia. Qed.

Lemma mirror_loop_spec values : forall all_valid results,
  mirror_loop values all_valid results
  = (all_valid,
     results ++ map (fun v => PDict [("value", PInt v); ("mirror", PInt (mirror v));
                                     ("mirror_mirror", PInt v); ("valid", PBool true)])
                    values).
Proof.
  induction values as [|v values IH]; intros all_valid results; cbn [mirror_loop map].
  - now rewrite app_nil_r.
  - rewrite mirror_involution, Z.eqb_refl. cbn [negb].
    rewrite IH, <- app_assoc. reflexivity.
Qed.

(** **** Extra X4.
    [mirror] is an involution, so [mirror_symmetry] reports [all_valid] true
    for every list of integers, with one check per value, in order, each
    holding the value, its mirror, the value again and [valid] true. *)
Theorem mirror_symmetry_all_valid (values : list Z) :
  mirror_symmetry values
  = [("all_valid", PBool true);
     ("checks",
      PList (map (fun v => PDict [("value", PInt v); ("mirror", PInt (214 - v));
                                  ("mirror_mirror", PInt v); ("valid", PBool true)])
                 values))].
Proof. unfold mirror_symmetry. rewrite mirror_loop_spec. reflexivity. Qed.

End SequencesFacts.

(** ** More facts about the decomposer *)

Module DecomposerMore.
Import PyVal Decomposer DecomposerFacts SequencesFacts.
Local Open Scope Z_scope.

Lemma F_succ_le j : F j <= F (S j).
Proof.
  destruct j as [|j]; [cbn; lia|].
  rewrite F_step. pose proof (F_nonneg j). lia.
Qed.

Lemma F_mono i j : (i <= j)%nat -> F i <= F j.
Proof.
  induction 1 as [|j _ IH]; [lia|]. pose proof (F_succ_le j). lia.
Qed.

(** The collecting loop keeps what it has and adds every Fibonacci number
    from index [k] on that does not exceed [n]. *)
Lemma collect_fibs_member n fuel : forall k fibs seen fibs',
  3 <= k -> (forall f, In f seen -> In f fibs) ->
  collect_fibs fuel n k fibs seen = Some (Ok fibs') ->
  (forall f, In f fibs -> In f fibs') /\
  (forall i, k <= Z.of_nat i -> F i <= n -> In (F i) fibs').
Proof.
  induction fuel as [|fuel IH]; intros k fibs seen fibs' Hk Hseen E; [discriminate|].
  cbn [collect_fibs] in E. rewrite (fib_nonneg_value k) in E by lia.
  cbn [lift fbind] in E. set (f := F (Z.to_nat k)) in *.
  destruct (Z.gtb_spec f n) as [Hgt|Hle].
  - inversion E; subst fibs'. split; [auto|].
    intros i Hi HF. exfalso.
    pose proof (F_mono (Z.to_nat k) i ltac:(lia)). fold f in H. lia.
  - assert (Hnext : exists fibs1 seen1,
              collect_fibs fuel n (k + 1) fibs1 seen1 = Some (Ok fibs') /\
              (forall g, In g seen1 -> In g fibs1) /\
              (forall g, In g fibs -> In g fibs1) /\ In f fibs1).
    { destruct (existsb (Z.eqb f) seen) eqn:Eseen.
      - exists fibs, seen. repeat split; auto.
        apply existsb_exists in Eseen as (x & Hx & Efx).
        apply Z.eqb_eq in Efx. subst x. auto.
      - exists (fibs ++ [f]), (f :: seen). split; [exact E|]. repeat split.
        + intros g [->|Hg]; apply in_or_app; [right; now left | left; auto].
        + intros g Hg. apply in_or_app. now left.
        + apply in_or_app. right. now left. }
    destruct Hnext as (fibs1 & seen1 & E1 & Hseen1 & Hkeep & Hf).
    destruct (IH (k + 1) fibs1 seen1 fibs' ltac:(lia) Hseen1 E1) as [Hin Hall].
    split; [auto|]. intros i Hi HF.
    destruct (Z.eq_dec (Z.of_nat i) k) as [Eik|Nik].
    + replace i with (Z.to_nat k) by lia. auto.
    + apply Hall; [lia | exact HF].
Qed.

(** The descending sort puts a greatest element first. *)
Lemma sort_by_geb_head n l :
  In n l -> Forall (fun f => f <= n) l -> exists rest, sort_by Z.geb l = n :: rest.
Proof.
  induction l as [|x l IH]; intros Hin Hall; [contradiction|].
  inversion Hall as [|? ? Hx Hl]; subst.
  change (sort_by Z.geb (x :: l)) with (insert_by Z.geb x (sort_by Z.geb l)).
  pose proof (sort_by_Forall Z.geb _ l Hl) as Hs.
  destruct (in_dec Z.eq_dec n l) as [Hnl|Hnl].
  - destruct (IH Hnl Hl) as (rest & ->). cbn [insert_by].
    destruct (Z.geb_spec x n) as [Hge|Hlt].
    + assert (x = n) by lia. subst x. eauto.
    + eauto.
  - destruct Hin as [->|Hin]; [|contradiction].
    destruct (sort_by Z.geb l) as [|y l']; cbn [insert_by]; [eauto|].
    inversion Hs; subst. destruct (Z.geb_spec n y); [eauto | lia].
Qed.

Lemma divide_out_done fuel f factors :
  divide_out (S fuel) f 1 factors = Some (Ok (factors, 1)).
Proof. reflexivity. Qed.

Lemma greedy_done fuel fibs : forall factors,
  greedy (S fuel) fibs 1 factors = Some (Ok (factors, 1)).
Proof.
  induction fibs as [|f fibs IH]; intros factors; [reflexivity|].
  cbn [greedy]. rewrite divide_out_done. cbn [fbind fst snd]. apply IH.
Qed.

Lemma F_ge_2 j : (3 <= j)%nat -> 2 <= F j.
Proof. intros Hj. pose proof (F_mono 3 j Hj). cbn in H. lia. Qed.

(** **** Extra X5.
    A Fibonacci number [F j >= 2] is its own decomposition:
    [fibonacci_factors(F j)] has the single factor [F j], product [F j],
    residual 0 and [exact] true. *)
Theorem fibonacci_factors_of_fibonacci (j : nat) : (3 <= j)%nat ->
  fibonacci_factors (F j)
  = Some (Ok [("factors", PList [PInt (F j)]); ("product", PInt (F j));
              ("residual", PInt 0); ("exact", PBool true)]).
Proof.
  intros Hj. pose proof (F_ge_2 j Hj) as Hn. set (n := F j) in *.
  unfold fibonacci_factors, fibonacci_factors_fuel.
  destruct (Z.leb_spec n 0) as [H|_]; [lia|].
  destruct (collect_fibs_total n (S (Z.to_nat n)) 3 [] [])
    as (fibs & Ec & Hfibs); [lia | lia | constructor |].
  destruct (collect_fibs_member n _ 3 [] [] fibs ltac:(lia) ltac:(auto) Ec)
    as [_ Hmem].
  rewrite Ec. cbn [fbind].
  destruct (sort_by_geb_head n fibs) as (rest & ->).
  { apply (Hmem j); [lia | unfold n; lia]. }
  { eapply Forall_impl; [exact Hfibs|]. intros f [Hf _]. lia. }
  cbn [greedy].
  assert (Ed : divide_out (S (Z.to_nat n)) n n [] = Some (Ok ([n], 1))).
  { cbn [divide_out]. destruct (Z.gtb_spec n 1) as [_|H]; [|lia].
    rewrite py_mod_nonzero by lia. cbn [lift fbind].
    rewrite Z.mod_same by lia. cbn [Z.eqb app].
    rewrite Z.div_same by lia.
    destruct (Z.to_nat n) as [|m] eqn:Em; [lia|]. reflexivity. }
  rewrite Ed. cbn [fbind fst snd]. rewrite greedy_done. cbn [fbind fst].
  cbn [sort_by fold_right insert_by map]. rewrite py_product_Zprod.
  cbn [Zprod fold_right]. rewrite Z.mul_1_r, Z.sub_diag, Z.eqb_refl. reflexivity.
Qed.

Lemma fibonacci_factors_of_fibonacci_witness :
  (3 <= 9)%nat /\
  fibonacci_factors (F 9)
  = Some (Ok [("factors", PList [PInt (F 9)]); ("product", PInt (F 9));
              ("residual", PInt 0); ("exact", PBool true)]).
Proof. split; [lia | apply (fibonacci_factors_of_fibonacci 9); lia]. Defined.

Lemma Zprod_lower fs : Forall (fun f => 2 <= f) fs -> 2 ^ Z.of_nat (length fs) <= Zprod fs.
Proof.
  induction 1 as [|f fs Hf Hfs IH]; [cbn; lia|].
  cbn [length]. rewrite Nat2Z.inj_succ, Z.pow_succ_r by lia.
  change (Zprod (f :: fs)) with (f * Zprod fs).
  assert (0 < 2 ^ Z.of_nat (length fs)) by (apply Z.pow_pos_nonneg; lia). nia.
Qed.

(** **** Extra X6.
    For [n >= 1] the record of [fibonacci_factors(n)] is within bounds:
    [1 <= product <= n], [0 <= residual <= n - 1], [exact] is true exactly
    when the residual is 0, and there are at most [log2 n] factors. *)
Theorem fibonacci_factors_bounds (n : Z) : 1 <= n ->
  exists d fs product residual exact,
    fibonacci_factors n = Some (Ok d) /\
    getitem d "factors" = Ok (PList (map PInt fs)) /\
    getitem d "product" = Ok (PInt product) /\
    getitem d "residual" = Ok (PInt residual) /\
    getitem d "exact" = Ok (PBool exact) /\
    1 <= product <= n /\ 0 <= residual <= n - 1 /\
    (exact = true <-> residual = 0) /\
    2 ^ Z.of_nat (length fs) <= n.
Proof.
  intros Hn. destruct (fibonacci_factors_pos n Hn) as (fs & E & _ & Hc & q & Hq).
  assert (Hlow : 2 ^ Z.of_nat (length fs) <= Zprod fs).
  { apply Zprod_lower. eapply Forall_impl; [exact Hc|]. intros f [Hf _]. lia. }
  assert (0 < 2 ^ Z.of_nat (length fs)) by (apply Z.pow_pos_nonneg; lia).
  assert (Hq1 : 1 <= q) by nia.
  assert (Hp : 1 <= Zprod fs <= n) by nia.
  exists (factor_record n fs), fs, (Zprod fs), (n - Zprod fs), (Zprod fs =? n).
  split; [exact E|]. repeat split; try reflexivity; lia.
Qed.

Lemma fibonacci_factors_bounds_witness :
  1 <= 90 /\
  exists d fs product residual exact,
    fibonacci_factors 90 = Some (Ok d) /\
    getitem d "factors" = Ok (PList (map PInt fs)) /\
    getitem d "product" = Ok (PInt product) /\
    getitem d "residual" = Ok (PInt residual) /\
    getitem d "exact" = Ok (PBool exact) /\
    1 <= product <= 90 /\ 0 <= residual <= 90 - 1 /\
    (exact = true <-> residual = 0) /\
    2 ^ Z.of_nat (length fs) <= 90.
Proof. split; [lia | apply (fibonacci_factors_bounds 90); lia]. Defined.

Lemma fibonacci_factors_returns n : exists ff, fibonacci_factors n = Some (Ok ff).
Proof.
  destruct (Z_le_gt_dec n 0) as [Hle|Hgt].
  - eexists. apply fibonacci_factors_nonpos, Hle.
  - destruct (fibonacci_factors_pos n ltac:(lia)) as (fs & E & _). eauto.
Qed.

Lemma known_rep_table dim :
  In dim [1; 3; 8; 12; 24; 45; 78; 133; 248] <-> known_rep dim KNOWN_REPS <> None.
Proof.
  unfold KNOWN_REPS. cbn [known_rep In].
  repeat match goal with
         | |- context [?a =? ?b] => destruct (Z.eqb_spec a b)
         end;
    split; intros H; try discriminate; try congruence; try lia; intuition lia.
Qed.

(** **** Extra X7.
    [gut_decomposition] returns for every integer, positive or not: a record
    with the dimension, the decomposition [fibonacci_factors] gives for it,
    and a group that differs from ["unknown"] exactly for the nine
    dimensions of the table; an unknown dimension has [fibonacci_form] None. *)
Theorem gut_decomposition_record (dim : Z) :
  exists info ff group,
    gut_decomposition dim = Some (Ok info) /\
    fibonacci_factors dim = Some (Ok ff) /\
    getitem info "dimension" = Ok (PInt dim) /\
    getitem info "fibonacci_factors" = Ok (PDict ff) /\
    getitem info "group" = Ok (PStr group) /\
    (group <> "unknown" <-> In dim [1; 3; 8; 12; 24; 45; 78; 133; 248]) /\
    (group = "unknown" -> getitem info "fibonacci_form" = Ok PNone).
Proof.
  destruct (fibonacci_factors_returns dim) as (ff & Eff).
  pose proof (known_rep_table dim) as Htab.
  unfold gut_decomposition. rewrite Eff. cbn [fbind].
  destruct (known_rep dim KNOWN_REPS) as [[g f]|] eqn:E.
  - destruct (known_rep_facts dim g f E) as [_ Hne].
    assert (Hg : g <> "unknown").
    { intros ->. discriminate Hne. }
    exists [("dimension", PInt dim); ("group", PStr g);
            ("fibonacci_form", PStr f); ("fibonacci_factors", PDict ff)], ff, g.
    assert (Hin : In dim [1; 3; 8; 12; 24; 45; 78; 133; 248])
      by (apply Htab; discriminate).
    split; [reflexivity|]. split; [reflexivity|]. split; [reflexivity|].
    split; [reflexivity|]. split; [reflexivity|]. split; [tauto | contradiction].
  - exists [("dimension", PInt dim); ("group", PStr "unknown");
            ("fibonacci_form", PNone); ("fibonacci_factors", PDict ff)], ff, "unknown".
    split; [reflexivity|]. split; [reflexivity|]. split; [reflexivity|].
    split; [reflexivity|]. split; [reflexivity|]. split; [|reflexivity].
    split; [intros Hu; now contradiction Hu|].
    intros Hin. apply Htab in Hin. now contradiction Hin.
Qed.

(** **** Extra X8.
    [hierarchy_rank] raises [KeyError('exact')] exactly when some denominator
    is zero or negative; otherwise it returns one record per denominator. *)
Theorem hierarchy_rank_outcome (denominators : list Z) :
  (hierarchy_rank denominators = Some (Raise (KeyError "exact"))
   <-> Exists (fun d => d <= 0) denominators) /\
  ((exists out, hierarchy_rank denominators = Some (Ok out) /\
                length out = length denominators)
   <-> Forall (fun d => 1 <= d) denominators).
Proof.
  assert (Hdec : Exists (fun d => d <= 0) denominators \/
                 Forall (fun d => 1 <= d) denominators).
  { induction denominators as [|d l [IH|IH]].
    - right. constructor.
    - left. now constructor 2.
    - destruct (Z_le_gt_dec d 0); [left; now constructor 1|].
      right. constructor; [lia | assumption]. }
  split; split.
  - intros E. destruct Hdec as [H|H]; [exact H|].
    destruct (hierarchy_rank_positive _ H) as (rs & out & Eo & _). congruence.
  - apply hierarchy_rank_nonpositive.
  - intros (out & E & _). destruct Hdec as [H|H]; [|exact H].
    rewrite (hierarchy_rank_nonpositive _ H) in E. discriminate.
  - intros H. destruct (hierarchy_rank_positive _ H) as (rs & out & Eo & Hrs & Hperm & _).
    exists out. split; [exact Eo|].
    rewrite <- (Permutation_length Hperm). symmetry.
    clear -Hrs. induction Hrs; cbn [length]; congruence.
Qed.



End DecomposerMore.

(** ** What the queries of the constants table return *)

Module ConstantsDBMore.
Import PyVal ConstantsDB ConstantsTable ConstantsDBFacts.
Local Open Scope nat_scope.

Lemma select_get_find look name cs :
  Forall (fun c => contains "name" (look c) = true) cs ->
  exists r, select_get look name cs = Ok r /\
            option_map look r = List.find (named name) (map look cs).
Proof.
  induction 1 as [|c cs Hc Hcs (r & E & Hr)]; cbn [select_get map List.find].
  - exists None. split; reflexivity.
  - unfold contains in Hc. unfold getitem, named.
    destruct (dict_get "name" (look c)) as [v|]; [|discriminate]. cbn [bind].
    destruct (eq_str v name).
    + exists (Some c). split; reflexivity.
    + exists r. split; assumption.
Qed.

(** **** Extra X10.
    [get(name)] returns a copy of the first record of the table whose name
    is [name], and None when there is none; it raises nothing when every
    record has a name. *)
Theorem get_first_named (db : list loc) (h : heap) (name : string) :
  well_formed db h ->
  Forall (fun c => contains "name" (deref h c) = true) db ->
  observe (get db name h)
  = Ok (One (List.find (named name) (map (deref h) db))).
Proof.
  intros Hwf Hnames. unfold get. rewrite observe_run_query by assumption.
  cbn [select]. destruct (select_get_find (deref h) name db Hnames) as (r & -> & Hr).
  cbn [bind answer_map]. now rewrite Hr.
Qed.

Lemma get_first_named_witness :
  observe (get sample_db "M_W" sample_heap)
  = Ok (One (List.find (named "M_W") (map (deref sample_heap) sample_db))).
Proof.
  apply (get_first_named sample_db sample_heap "M_W").
  - exact sample_well_formed.
  - repeat constructor.
Defined.

Lemma filter_py_filter (p : dict -> result bool) (pb : dict -> bool) look cs :
  Forall (fun c => p (look c) = Ok (pb (look c))) cs ->
  filter_py p look cs = Ok (List.filter (fun c => pb (look c)) cs).
Proof.
  induction 1 as [|c cs Hc Hcs IH]; cbn [filter_py List.filter]; [reflexivity|].
  rewrite Hc, IH. cbn [bind]. reflexivity.
Qed.

Lemma map_filter_look (pb : dict -> bool) (look : loc -> dict) cs :
  map look (List.filter (fun c => pb (look c)) cs) = List.filter pb (map look cs).
Proof.
  induction cs as [|c cs IH]; cbn [List.filter map]; [reflexivity|].
  destruct (pb (look c)); cbn [map]; now rewrite IH.
Qed.

Lemma filter_filter {A : Type} (p q : A -> bool) l :
  List.filter q (List.filter p l) = List.filter (fun x => p x && q x) l.
Proof.
  induction l as [|x l IH]; cbn [List.filter]; [reflexivity|].
  destruct (p x); cbn [List.filter andb]; [destruct (q x)|]; now rewrite IH.
Qed.

Lemma Forall_filter {A : Type} (P : A -> Prop) (p : A -> bool) l :
  Forall P l -> Forall P (List.filter p l).
Proof.
  induction 1 as [|x l Hx Hl IH]; cbn [List.filter]; [constructor|].
  destruct (p x); [constructor|]; assumption.
Qed.

Lemma select_search_filter look sector query cs :
  Forall (fun c => searchable (look c) = true) cs ->
  select_search look sector query cs
  = Ok (List.filter (fun c => in_sector sector (look c) && name_matches query (look c)) cs).
Proof.
  intros Hok. unfold select_search.
  assert (Es : match given sector with
               | Some s => filter_py (fun d => do v <- getitem d "sector" ; Ok (eq_str v s))
                             look cs
               | None => Ok cs
               end = Ok (List.filter (fun c => in_sector sector (look c)) cs)).
  { unfold in_sector. destruct (given sector) as [s|].
    - apply (filter_py_filter _
               (fun d => match dict_get "sector" d with
                         | Some v => eq_str v s | None => false end)).
      eapply Forall_impl; [exact Hok|]. intros c Hc. cbn beta in *.
      unfold searchable, contains in Hc. unfold getitem.
      destruct (dict_get "sector" (look c)); [reflexivity | discriminate].
    - f_equal. induction cs as [|c cs IH]; cbn [List.filter]; [reflexivity|].
      inversion Hok; subst. now rewrite <- IH. }
  rewrite Es. cbn [bind]. rewrite <- filter_filter.
  set (by_sector := List.filter (fun c => in_sector sector (look c)) cs).
  assert (Hby : Forall (fun c => searchable (look c) = true) by_sector)
    by (apply Forall_filter; exact Hok).
  clearbody by_sector. unfold name_matches. destruct (given query) as [qs|].
  - apply (filter_py_filter _
             (fun d => match dict_get "name" d with
                       | Some (PStr s) => is_substring (lower qs) (lower s)
                       | _ => false end)).
    eapply Forall_impl; [exact Hby|]. intros c Hc. cbn beta in *.
    unfold searchable in Hc. apply andb_prop in Hc as [_ Hc]. unfold getitem.
    destruct (dict_get "name" (look c)) as [[| | | |s| |]|]; try discriminate.
    reflexivity.
  - f_equal. clear. induction by_sector as [|c l IH]; cbn [List.filter]; [reflexivity|].
    now rewrite <- IH.
Qed.

Lemma select_search_all look sector query cs :
  given sector = None -> given query = None ->
  select_search look sector query cs = Ok cs.
Proof. intros Hs Hq. unfold select_search. now rewrite Hs, Hq. Qed.

(** **** Extra X11.
    [search(sector, query)] returns copies of the records of the table, in
    table order, whose sector equals [sector] (when one is given) and whose
    name contains [query] in lower case (when one is given), the name being
    lowered too; an argument that is None or the empty string does not
    filter, so that [search()] returns a copy of the whole table. *)
Theorem search_filters (db : list loc) (h : heap) (sector query : option string) :
  well_formed db h ->
  (given sector = None -> given query = None ->
     observe (search db sector query h) = Ok (Many (map (deref h) db))) /\
  (Forall (fun c => searchable (deref h c) = true) db ->
     observe (search db sector query h)
     = Ok (Many (List.filter (fun d => in_sector sector d && name_matches query d)
                   (map (deref h) db)))).
Proof.
  intros Hwf. unfold search. rewrite observe_run_query by assumption.
  cbn [select]. split.
  - intros Hs Hq. now rewrite select_search_all.
  - intros Hok. rewrite select_search_filter by assumption.
    cbn [bind answer_map]. do 2 f_equal.
    apply (map_filter_look (fun d => in_sector sector d && name_matches query d)).
Qed.

Lemma search_filters_witness :
  observe (search sample_db (Some "electroweak") (Some "M_") sample_heap)
  = Ok (Many (List.filter (fun d => in_sector (Some "electroweak") d &&
                                      name_matches (Some "M_") d)
                (map (deref sample_heap) sample_db))).
Proof.
  apply (search_filters sample_db sample_heap (Some "electroweak") (Some "M_")).
  - exact sample_well_formed.
  - repeat constructor.
Defined.

Local Open Scope Q_scope.

Lemma non_exact_positive d : has_ppm d = true -> non_exact d = Ok (positive_ppm d).
Proof.
  unfold has_ppm, non_exact, positive_ppm, ppm_of, getitem.
  destruct (dict_get "deviation_ppm" d) as [v|]; [|discriminate]. cbn [bind].
  destruct (as_number v); [reflexivity | discriminate].
Qed.

Lemma ppm_keys_spec look cs :
  Forall (fun c => has_ppm (look c) = true) cs ->
  ppm_keys look cs = Ok (map (fun c => (ppm_of (look c), c)) cs).
Proof.
  induction 1 as [|c cs Hc Hcs IH]; cbn [ppm_keys map]; [reflexivity|].
  unfold has_ppm in Hc. unfold ppm_of, getitem.
  destruct (dict_get "deviation_ppm" (look c)) as [v|]; [|discriminate]. cbn [bind].
  destruct (as_number v) as [q|]; [|discriminate]. cbn [bind].
  rewrite IH. reflexivity.
Qed.

Lemma Qle_bool_total a b : Qle_bool a b = false -> Qle_bool b a = true.
Proof.
  intros H. apply Qle_bool_iff.
  destruct (Qlt_le_dec b a) as [Hlt|Hle]; [now apply Qlt_le_weak|].
  apply Qle_bool_iff in Hle. congruence.
Qed.

Lemma Sorted_by_ppm look (keyed : list (Q * loc)) :
  Forall (fun kc => fst kc = ppm_of (look (snd kc))) keyed ->
  Sorted (fun a b => Qle_bool (fst a) (fst b) = true) keyed ->
  Sorted ppm_le (map look (map snd keyed)).
Proof.
  intros Hall Hs. induction Hs as [|a l Hl IH Ha]; cbn [map]; [constructor|].
  inversion Hall as [|? ? Hq Hall']; subst.
  constructor; [apply IH; assumption|].
  destruct Ha as [|b l Hab]; cbn [map]; constructor.
  inversion Hall' as [|? ? Hqb _]; subst.
  unfold ppm_le. rewrite <- Hq, <- Hqb. now apply Qle_bool_iff.
Qed.

Lemma slice_to_take {A : Type} n (l : list A) :
  exists k, slice_to n l = firstn k l /\
            length (firstn k l) = slice_length n (length l).
Proof.
  unfold slice_to, slice_length. destruct (n <? 0)%Z eqn:E.
  - eexists. split; [reflexivity|]. rewrite length_firstn.
    apply Z.ltb_lt in E. lia.
  - eexists. split; [reflexivity|]. now rewrite length_firstn.
Qed.

Lemma select_best_spec look n cs :
  Forall (fun c => has_ppm (look c) = true) cs ->
  exists sorted k,
    select_best look n cs = Ok (firstn k sorted) /\
    length (firstn k sorted)
      = slice_length n (length (List.filter positive_ppm (map look cs))) /\
    Permutation (map look sorted) (List.filter positive_ppm (map look cs)) /\
    Sorted ppm_le (map look sorted).
Proof.
  intros Hok. unfold select_best.
  rewrite (filter_py_filter non_exact positive_ppm).
  2:{ eapply Forall_impl; [exact Hok|]. intros c Hc. now apply non_exact_positive. }
  cbn [bind].
  set (kept := List.filter (fun c => positive_ppm (look c)) cs).
  assert (Hkept : map look kept = List.filter positive_ppm (map look cs))
    by apply map_filter_look.
  rewrite ppm_keys_spec by (apply Forall_filter; exact Hok). cbn [bind].
  set (keyed := map (fun c => (ppm_of (look c), c)) kept).
  set (sorted := sort_by (fun a b => Qle_bool (fst a) (fst b)) keyed).
  assert (Hperm : Permutation (map snd sorted) kept).
  { replace kept with (map snd keyed).
    - apply Permutation_map. symmetry. apply DecomposerFacts.sort_by_Permutation.
    - unfold keyed. rewrite map_map. cbn [snd]. apply map_id. }
  destruct (slice_to_take n (map snd sorted)) as (k & Ek & Hlen).
  exists (map snd sorted), k. rewrite Ek. split; [reflexivity|].
  split; [|split].
  - rewrite Hlen, <- Hkept, !length_map. f_equal.
    rewrite <- (length_map snd). now apply Permutation_length.
  - rewrite <- Hkept. now apply Permutation_map.
  - apply Sorted_by_ppm.
    + apply DecomposerFacts.sort_by_Forall. unfold keyed.
      apply List.Forall_forall. intros kc Hin. apply in_map_iff in Hin as (c & <- & _).
      reflexivity.
    + apply DecomposerFacts.sort_by_Sorted. intros a b. apply Qle_bool_total.
Qed.

(** **** Extra X12.
    [best_predictions(n)] returns copies of the records with a deviation
    above 0 that come first when those records are put in ascending order of
    deviation: the sorted list is the result followed by the records left
    out.  For [n >= 0] the result has [min(n, m)] records where [m] records
    have a positive deviation, for [n < 0] all but the last [-n] of them. *)
Theorem best_predictions_best (db : list loc) (h : heap) (n : Z) :
  well_formed db h ->
  Forall (fun c => has_ppm (deref h c) = true) db ->
  exists best rest,
    observe (best_predictions db n h) = Ok (Many best) /\
    Permutation (best ++ rest) (List.filter positive_ppm (map (deref h) db)) /\
    Sorted ppm_le (best ++ rest) /\
    length best
      = slice_length n (length (List.filter positive_ppm (map (deref h) db))).
Proof.
  intros Hwf Hok. unfold best_predictions. rewrite observe_run_query by assumption.
  cbn [select].
  destruct (select_best_spec (deref h) n db Hok) as (sorted & k & -> & Hlen & Hperm & Hs).
  cbn [bind answer_map].
  exists (map (deref h) (firstn k sorted)), (map (deref h) (skipn k sorted)).
  rewrite <- map_app, firstn_skipn, length_map.
  repeat split; assumption.
Qed.

Lemma best_predictions_best_witness :
  exists best rest,
    observe (best_predictions sample_db 2 sample_heap) = Ok (Many best) /\
    Permutation (best ++ rest)
      (List.filter positive_ppm (map (deref sample_heap) sample_db)) /\
    Sorted ppm_le (best ++ rest) /\
    length best
      = slice_length 2
          (length (List.filter positive_ppm (map (deref sample_heap) sample_db))).
Proof.
  apply (best_predictions_best sample_db sample_heap 2).
  - exact sample_well_formed.
  - repeat constructor.
Defined.

(** *** _entry and validate_against *)

Lemma round_half_even_near q :
  Qabs (inject_Z (SumRule.round_half_even q) - q) <= 1 # 2.
Proof.
  unfold SumRule.round_half_even.
  pose proof (Qfloor_le q) as Hlo. pose proof (Qlt_floor q) as Hhi.
  rewrite inject_Z_plus in Hhi.
  destruct (Qcompare_spec (q - inject_Z (Qfloor q)) (1 # 2)) as [E|E|E];
    [destruct (Z.even (Qfloor q))| |];
    rewrite ?inject_Z_plus; change (inject_Z 1) with 1 in *;
    apply Qabs_Qle_condition; split; lra.
Qed.

Lemma round_half_even_nonneg q : 0 <= q -> (0 <= SumRule.round_half_even q)%Z.
Proof.
  intros Hq. unfold SumRule.round_half_even.
  assert (0 <= Qfloor q)%Z by (change 0%Z with (Qfloor 0); now apply Qfloor_resp_le).
  destruct (Qcompare _ _); [destruct (Z.even _)| |]; lia.
Qed.

Lemma round_half_even_zero q : q == 0 -> SumRule.round_half_even q = 0%Z.
Proof. intros H. now rewrite (SumRuleFacts.round_half_even_comp _ _ H). Qed.

Lemma py_round_one q :
  SumRule.py_round q 1 == inject_Z (SumRule.round_half_even (q * 10)) / 10.
Proof. reflexivity. Qed.

Lemma exact_ppm_nonneg value experimental :
  0 <= (if Qeq_bool experimental 0 then 0
        else Qabs (value - experimental) / Qabs experimental * 1e6).
Proof.
  destruct (Qeq_bool experimental 0) eqn:E; [lra|].
  assert (He : ~ experimental == 0) by (intros H; apply Qeq_bool_iff in H; congruence).
  pose proof (SumRuleFacts.Qabs_nonzero _ He) as Hne.
  pose proof (Qabs_nonneg experimental) as H1.
  pose proof (Qabs_nonneg (value - experimental)) as H2.
  apply Qmult_le_0_compat; [|discriminate].
  apply Qle_shift_div_l; lra.
Qed.

Lemma rounded_ppm_facts value experimental :
  0 <= rounded_ppm value experimental /\
  (exists k : Z, rounded_ppm value experimental == inject_Z k / 10) /\
  (experimental == 0 \/ value == experimental -> rounded_ppm value experimental == 0) /\
  (~ experimental == 0 ->
   Qabs (rounded_ppm value experimental
         - Qabs (value - experimental) / Qabs experimental * 1e6) <= 1 # 20).
Proof.
  unfold rounded_ppm. pose proof (exact_ppm_nonneg value experimental) as Hnn.
  set (ppm := if Qeq_bool experimental 0 then 0
              else Qabs (value - experimental) / Qabs experimental * 1e6) in *.
  rewrite py_round_one.
  pose proof (round_half_even_nonneg (ppm * 10) ltac:(lra)) as Hr.
  pose proof (round_half_even_near (ppm * 10)) as Hnear.
  set (k := SumRule.round_half_even (ppm * 10)) in *.
  assert (Hk : 0 <= inject_Z k) by (change 0 with (inject_Z 0); now rewrite <- Zle_Qle).
  split; [|split; [|split]].
  - apply Qle_shift_div_l; lra.
  - exists k. reflexivity.
  - intros Hz. assert (Hp : ppm == 0).
    { unfold ppm. destruct (Qeq_bool experimental 0) eqn:E; [reflexivity|].
      destruct Hz as [Hz|Hz]; [apply Qeq_bool_iff in Hz; congruence|].
      assert (E0 : value - experimental == 0) by lra.
      rewrite E0. unfold Qdiv. change (Qabs 0) with 0. ring. }
    unfold k. rewrite round_half_even_zero by lra. reflexivity.
  - intros He. assert (Hp : ppm = Qabs (value - experimental) / Qabs experimental * 1e6).
    { unfold ppm. destruct (Qeq_bool experimental 0) eqn:E; [|reflexivity].
      apply Qeq_bool_iff in E. contradiction. }
    rewrite <- Hp. apply Qabs_Qle_condition in Hnear as [H1 H2].
    apply Qabs_Qle_condition. split.
    + apply Qplus_le_l with (z := ppm). field_simplify.
      apply Qle_shift_div_l; lra.
    + apply Qplus_le_l with (z := ppm). field_simplify.
      apply Qle_shift_div_r; lra.
Qed.

Lemma _entry_value name value experimental unit sector formula :
  _entry name value experimental unit sector formula
  = Ok [("name", PStr name); ("value", PFloat value);
        ("experimental", PFloat experimental); ("unit", PStr unit);
        ("sector", PStr sector); ("formula", PStr formula);
        ("deviation_ppm", PFloat (rounded_ppm value experimental))].
Proof.
  unfold _entry, rounded_ppm.
  destruct (Qeq_bool experimental 0) eqn:E; cbn [negb bind]; [reflexivity|].
  rewrite SumRuleFacts.py_div_rational; [reflexivity|].
  apply SumRuleFacts.Qabs_nonzero. intros H. apply Qeq_bool_iff in H. congruence.
Qed.

(** **** Extra X13.
    [_entry] raises nothing, whatever the numbers: it returns the record of
    its six arguments and of a [deviation_ppm] that is not negative, has one
    decimal, is 0 when the experimental value is 0 or equals the value, and
    is otherwise within 0.05 of
    [|value - experimental| / |experimental| * 1e6]. *)
Theorem _entry_record (name : string) (value experimental : Q)
    (unit sector formula : string) :
  exists ppm,
    _entry name value experimental unit sector formula
    = Ok [("name", PStr name); ("value", PFloat value);
          ("experimental", PFloat experimental); ("unit", PStr unit);
          ("sector", PStr sector); ("formula", PStr formula);
          ("deviation_ppm", PFloat ppm)] /\
    0 <= ppm /\
    (exists k : Z, ppm == inject_Z k / 10) /\
    (experimental == 0 \/ value == experimental -> ppm == 0) /\
    (~ experimental == 0 ->
     Qabs (ppm - Qabs (value - experimental) / Qabs experimental * 1e6) <= 1 # 20).
Proof.
  exists (rounded_ppm value experimental).
  split; [apply _entry_value | apply rounded_ppm_facts].
Qed.

Lemma observe_get db h name :
  well_formed db h ->
  Forall (fun c => contains "name" (deref h c) = true) db ->
  observe (get db name h)
  = Ok (One (List.find (named name) (map (deref h) db))).
Proof.
  intros Hwf Hnames. unfold get. rewrite observe_run_query by assumption.
  cbn [select]. destruct (select_get_find (deref h) name db Hnames) as (r & -> & Hr).
  cbn [bind answer_map]. now rewrite Hr.
Qed.

Lemma map_deref_agree db h0 h :
  agree db (deref h) (deref h0) -> map (deref h) db = map (deref h0) db.
Proof.
  intros Hag. apply map_ext_Forall, Forall_forall. exact Hag.
Qed.

(** One call of [get] inside the loop of [validate_against]. *)
Lemma get_step db h0 h name :
  well_formed db h0 -> preserved db h0 h ->
  Forall (fun c => contains "name" (deref h0 c) = true) db ->
  exists r h1,
    get db name h = (Ok (One r), h1) /\ preserved db h0 h1 /\
    option_map (deref h1) r = List.find (named name) (map (deref h0) db).
Proof.
  intros Hwf0 Hp Hnames.
  pose proof (preserved_well_formed db h0 h Hwf0 Hp) as Hwf.
  pose proof (ask_preserved db h0 h (Get name) Hwf0 Hp) as Hp1.
  assert (Hnames' : Forall (fun c => contains "name" (deref h c) = true) db).
  { destruct Hp as [_ Hag]. apply Forall_forall. intros c Hc.
    rewrite (Hag c Hc). rewrite Forall_forall in Hnames. now apply Hnames. }
  pose proof (observe_get db h name Hwf Hnames') as Hobs.
  rewrite (map_deref_agree db h0 h (proj2 Hp)) in Hobs.
  unfold get in *. destruct (run_query db (Get name) h) as [r h1].
  unfold observe in Hobs. cbn [fst snd] in *.
  destruct r as [[r|rs]|e]; cbn [answer_map] in Hobs; try discriminate.
  exists r, h1. split; [reflexivity|]. split; [exact Hp1|]. congruence.
Qed.

Lemma compare_entry_value name exp_val e v value :
  dict_get "value" e = Some v -> as_number v = Ok value ->
  compare_entry name exp_val e
  = Ok [("name", PStr name); ("predicted", v); ("experimental", PFloat exp_val);
        ("deviation_ppm", PFloat (rounded_ppm value exp_val))].
Proof.
  intros Ev En. unfold compare_entry, rounded_ppm, getitem. rewrite Ev. cbn [bind].
  destruct (Qeq_bool exp_val 0) eqn:E; cbn [negb bind]; [reflexivity|].
  rewrite En. cbn [bind].
  rewrite SumRuleFacts.py_div_rational; [reflexivity|].
  apply SumRuleFacts.Qabs_nonzero. intros H. apply Qeq_bool_iff in H. congruence.
Qed.

Lemma comparable_value e : comparable e = true ->
  exists v value, dict_get "value" e = Some v /\ as_number v = Ok value.
Proof.
  unfold comparable. intros H. apply andb_prop in H as [_ H].
  destruct (dict_get "value" e) as [v|]; [|discriminate].
  destruct (as_number v) as [value|] eqn:E; [|discriminate]. eauto.
Qed.

Lemma compare_each_spec db h0 :
  well_formed db h0 ->
  Forall (fun c => comparable (deref h0 c) = true) db ->
  forall experimental results h, preserved db h0 h ->
    exists rs h',
      compare_each db experimental results h = (Ok (results ++ rs), h') /\
      preserved db h0 h' /\
      Forall2 (comparison (map (deref h0) db)) experimental rs.
Proof.
  intros Hwf0 Hok.
  assert (Hnames : Forall (fun c => contains "name" (deref h0 c) = true) db).
  { eapply Forall_impl; [exact Hok|]. intros c Hc. cbn beta in *.
    unfold comparable in Hc. now apply andb_prop in Hc as [Hc _]. }
  induction experimental as [|[name exp_val] rest IH]; intros results h Hp.
  - exists [], h. cbn [compare_each]. rewrite app_nil_r.
    split; [reflexivity|]. split; [assumption | constructor].
  - cbn [compare_each].
    destruct (get_step db h0 h name Hwf0 Hp Hnames) as (r & h1 & -> & Hp1 & Hr).
    destruct r as [entry|]; cbn [option_map] in Hr.
    + symmetry in Hr. pose proof Hr as Hfind.
      apply find_some in Hfind as [Hin _].
      apply in_map_iff in Hin as (c & Ec & Hc).
      assert (Hcmp : comparable (deref h1 entry) = true).
      { rewrite <- Ec. rewrite List.Forall_forall in Hok. now apply Hok. }
      destruct (comparable_value _ Hcmp) as (v & value & Ev & En).
      rewrite (compare_entry_value name exp_val _ v value Ev En).
      match goal with
      | |- context [compare_each db rest ?acc h1] =>
          destruct (IH acc h1 Hp1) as (rs & h' & E & Hp' & Hrs)
      end.
      eexists (_ :: rs), h'. rewrite E, <- app_assoc. split; [reflexivity|].
      split; [exact Hp'|]. constructor; [|exact Hrs].
      unfold comparison. cbn [fst snd]. rewrite Hr. exists v, value. auto.
    + match goal with
      | |- context [compare_each db rest ?acc h1] =>
          destruct (IH acc h1 Hp1) as (rs & h' & E & Hp' & Hrs)
      end.
      eexists (_ :: rs), h'. rewrite E, <- app_assoc. split; [reflexivity|].
      split; [exact Hp'|]. constructor; [|exact Hrs].
      unfold comparison. cbn [fst snd]. rewrite <- Hr. reflexivity.
Qed.

(** **** Extra X14.
    On a table whose records have a name and a number for a value,
    [validate_against] raises nothing and returns one comparison per item of
    its argument, in the order of the items: for a name the table does not
    have, the name and the error ["not found"]; otherwise the name, the value
    of the first record of that name, the experimental value supplied, and
    the deviation [_entry] would store for that value against it. *)
Theorem validate_against_comparisons (db : list loc) (h : heap)
    (experimental : list (string * Q)) :
  well_formed db h ->
  Forall (fun c => comparable (deref h c) = true) db ->
  exists results,
    fst (validate_against db experimental h) = Ok [("comparisons", PList results)] /\
    Forall2 (comparison (map (deref h) db)) experimental results.
Proof.
  intros Hwf Hok. unfold validate_against.
  destruct (compare_each_spec db h Hwf Hok experimental [] h (preserved_refl db h))
    as (rs & h' & -> & _ & Hrs).
  exists rs. split; [reflexivity | exact Hrs].
Qed.

Lemma validate_against_comparisons_witness :
  exists results,
    fst (validate_against sample_db [("M_W", 80.4); ("M_X", 1); ("PHI", 0)] sample_heap)
    = Ok [("comparisons", PList results)] /\
    Forall2 (comparison (map (deref sample_heap) sample_db))
      [("M_W", 80.4); ("M_X", 1); ("PHI", 0)] results.
Proof.
  apply (validate_against_comparisons sample_db sample_heap).
  - exact sample_well_formed.
  - repeat constructor.
Defined.

(** **** Extra X15.
    Comparing a constant against the experimental value it was entered
    with gives back the deviation stored in the table: if the first record
    named [name] is the one [_entry] built for [value] and [experimental],
    then [validate_against({name: experimental})] reports [value] and that
    record's [deviation_ppm]. *)
Theorem validate_against_own_experimental (db : list loc) (h : heap)
    (name : string) (value experimental : Q) (unit sector formula : string)
    (e : dict) (ppm : pyval) :
  well_formed db h ->
  Forall (fun c => comparable (deref h c) = true) db ->
  List.find (named name) (map (deref h) db) = Some e ->
  _entry name value experimental unit sector formula = Ok e ->
  getitem e "deviation_ppm" = Ok ppm ->
  fst (validate_against db [(name, experimental)] h)
  = Ok [("comparisons",
         PList [PDict [("name", PStr name); ("predicted", PFloat value);
                       ("experimental", PFloat experimental);
                       ("deviation_ppm", ppm)]])].
Proof.
  intros Hwf Hok Hfind He Hppm. unfold validate_against.
  destruct (compare_each_spec db h Hwf Hok [(name, experimental)] [] h
              (preserved_refl db h)) as (rs & h' & -> & _ & Hrs).
  inversion Hrs as [|? r ? rs' Hr Hnil]; subst. inversion Hnil; subst.
  unfold comparison in Hr. cbn [fst snd] in Hr. rewrite Hfind in Hr.
  destruct Hr as (v & x & Ev & En & ->).
  rewrite _entry_value in He. inversion He; subst e.
  cbn in Ev. inversion Ev; subst v. cbn in En. inversion En; subst x.
  cbn in Hppm. inversion Hppm; subst ppm. reflexivity.
Qed.

Lemma validate_against_own_experimental_witness :
  fst (validate_against sample_db [("M_W", 80.3692)] sample_heap)
  = Ok [("comparisons",
         PList [PDict [("name", PStr "M_W"); ("predicted", PFloat 80.379);
                       ("experimental", PFloat 80.3692);
                       ("deviation_ppm", PFloat 121.9)]])].
Proof.
  apply (validate_against_own_experimental sample_db sample_heap
           "M_W" 80.379 80.3692 "GeV" "electroweak" "Brahim tree"
           (deref sample_heap 1) (PFloat 121.9)).
  - exact sample_well_formed.
  - repeat constructor.
  - reflexivity.
  - vm_compute. reflexivity.
  - reflexivity.
Defined.

End ConstantsDBMore.

(** ** The sum rule closed by its missing term *)

Module SumRuleMore.
Import SumRule Analyzer SumRuleFacts.
Local Open Scope Q_scope.







End SumRuleMore.

(** ** The adapter registry and the adapters on missing input *)

Module EngineFacts.
Import PyVal Adapters Engine AdapterPipeline.

Lemma adapters_get_register_same name adapter adapters :
  adapters_get name (register_adapter name adapter adapters) = Some adapter.
Proof.
  induction adapters as [|[k a] rest IH]; cbn [register_adapter adapters_get].
  - now rewrite String.eqb_refl.
  - destruct (String.eqb name k) eqn:E; cbn [adapters_get].
    + now rewrite String.eqb_refl.
    + now rewrite E.
Qed.

Lemma adapters_get_register_other name other adapter adapters :
  other <> name ->
  adapters_get other (register_adapter name adapter adapters)
  = adapters_get other adapters.
Proof.
  intros Hne. induction adapters as [|[k a] rest IH];
    cbn [register_adapter adapters_get].
  - destruct (String.eqb_spec other name); [contradiction | reflexivity].
  - destruct (String.eqb_spec name k) as [->|Hk]; cbn [adapters_get].
    + destruct (String.eqb_spec other k); [contradiction | reflexivity].
    + destruct (String.eqb other k); [reflexivity | exact IH].
Qed.

Lemma list_adapters_register name adapter adapters :
  list_adapters (register_adapter name adapter adapters)
  = if existsb (String.eqb name) (list_adapters adapters)
    then list_adapters adapters
    else list_adapters adapters ++ [name].
Proof.
  unfold list_adapters.
  induction adapters as [|[k a] rest IH]; cbn [register_adapter map existsb fst app];
    [reflexivity|].
  destruct (String.eqb_spec name k) as [->|Hk]; cbn [map fst orb]; [reflexivity|].
  rewrite IH. now destruct (existsb (String.eqb name) (map fst rest)).
Qed.

Lemma adapters_get_unlisted name adapters :
  ~ In name (list_adapters adapters) -> adapters_get name adapters = None.
Proof.
  unfold list_adapters.
  induction adapters as [|[k a] rest IH]; cbn [map fst In adapters_get]; intros H;
    [reflexivity|].
  destruct (String.eqb_spec name k) as [->|Hk]; [tauto|]. apply IH. tauto.
Qed.

(** **** Extra X17.
    Registering and running compose: after [register_adapter(name, adapter)]
    the call [run(name, data)] is [adapter.report(adapter.analyze(
    adapter.ingest(data)))], every other name runs as before, and
    [list_adapters] keeps its order, the name being added at the end only
    if it was not there. *)
Theorem register_then_run (adapters : registry) (name : string)
    (adapter : BaseAdapter) (data : dict) :
  run (register_adapter name (Some adapter) adapters) name data
  = (do ingested <- ingest adapter data ;
     do res <- analyze adapter ingested ;
     report adapter res) /\
  (forall other, other <> name ->
     run (register_adapter name (Some adapter) adapters) other data
     = run adapters other data) /\
  list_adapters (register_adapter name (Some adapter) adapters)
  = (if existsb (String.eqb name) (list_adapters adapters)
     then list_adapters adapters
     else list_adapters adapters ++ [name]).
Proof.
  split; [|split].
  - unfold run. now rewrite adapters_get_register_same.
  - intros other Hne. unfold run. now rewrite adapters_get_register_other.
  - apply list_adapters_register.
Qed.

(** **** Extra X18.
    [run] on a name that was never registered raises nothing and returns
    [{"error": "Adapter '<name>' not registered"}]; so it does on a name
    registered with None, although [list_adapters] lists that name. *)
Theorem run_not_registered (adapters : registry) (name : string) (data : dict) :
  ~ In name (list_adapters adapters) ->
  run adapters name data
  = Ok [("error", PStr ("Adapter '" ++ name ++ "' not registered")%string)] /\
  run (register_adapter name None adapters) name data
  = Ok [("error", PStr ("Adapter '" ++ name ++ "' not registered")%string)] /\
  In name (list_adapters (register_adapter name None adapters)).
Proof.
  intros Hnot. split; [|split].
  - unfold run. now rewrite adapters_get_unlisted.
  - unfold run. now rewrite adapters_get_register_same.
  - rewrite list_adapters_register.
    destruct (existsb (String.eqb name) (list_adapters adapters)) eqn:E.
    + apply existsb_exists in E as (k & Hk & Ek).
      apply String.eqb_eq in Ek. now subst k.
    + apply in_or_app. right. now left.
Qed.

Lemma run_not_registered_witness :
  run [("calibration", None)] "fusion" []
  = Ok [("error", PStr "Adapter 'fusion' not registered")] /\
  run (register_adapter "fusion" None [("calibration", None)]) "fusion" []
  = Ok [("error", PStr "Adapter 'fusion' not registered")] /\
  In "fusion" (list_adapters (register_adapter "fusion" None [("calibration", None)])).
Proof.
  apply (run_not_registered [("calibration", None)] "fusion" []).
  cbn. intros [H|[]]. discriminate H.
Defined.

Section Pipelines.
Variable calibration_d_space : dict -> result dict.
Variable fusion_d_space : dict -> result dict.
Variable _ingest_cascade : dict -> Q -> Q -> result dict.
Variable _ingest_mof : dict -> result dict.
Variable _ingest_full : dict -> Q -> Q -> result dict.
Variable calibration_analysis : dict -> result AnalysisResult.
Variable fusion_analysis : dict -> result AnalysisResult.
Variable _analyze_cascade : dict -> result AnalysisResult.
Variable _analyze_mof : dict -> result AnalysisResult.
Variable _analyze_full : dict -> result AnalysisResult.
Variable float_of_str : string -> result Q.
Variable py_format : pyval -> string.

Lemma calibration_pipeline_no_readings name raw_data :
  truthy (get_default raw_data "readings" (PList [])) = false ->
  (do ingested <- calibration_ingest calibration_d_space raw_data ;
   do res <- calibration_analyze calibration_analysis ingested ;
   calibration_report name res)
  = Ok [("adapter", PStr name);
        ("success", PBool false);
        ("consistency_score", PFloat (SumRule.py_round 0 6));
        ("drift", PDict []);
        ("d_space_summary",
         PDict [("mean", PInt 0); ("std", PInt 0); ("n_readings", PInt 0)]);
        ("sum_rule", PDict []);
        ("corrected_values", PList []);
        ("recommendations", PList [PStr "No readings provided"])].
Proof. intros H. unfold calibration_ingest. rewrite H. reflexivity. Qed.

Lemma calibration_pipeline_bad_reference name raw_data ref :
  truthy (get_default raw_data "readings" (PList [])) = true ->
  ConstantsDB.as_number (get_default raw_data "reference" (PFloat 1)) = Ok ref ->
  (ref <= 0)%Q ->
  (do ingested <- calibration_ingest calibration_d_space raw_data ;
   do res <- calibration_analyze calibration_analysis ingested ;
   calibration_report name res)
  = Ok [("adapter", PStr name);
        ("success", PBool false);
        ("consistency_score", PFloat (SumRule.py_round 0 6));
        ("drift", PDict []);
        ("d_space_summary",
         PDict [("mean", PInt 0); ("std", PInt 0); ("n_readings", PInt 0)]);
        ("sum_rule", PDict []);
        ("corrected_values", PList []);
        ("recommendations", PList [PStr "Reference must be > 0"])].
Proof.
  intros H Href Hle. unfold calibration_ingest. rewrite H, Href. cbn [negb bind].
  apply Qle_bool_iff in Hle. rewrite Hle. reflexivity.
Qed.

Lemma run_registered adapters key adapter data :
  run (register_adapter key (Some adapter) adapters) key data
  = (do ingested <- ingest adapter data ;
     do res <- analyze adapter ingested ;
     report adapter res).
Proof. unfold run. now rewrite adapters_get_register_same. Qed.

(** **** Extra X19.
    The calibration adapter, run through the engine on data without
    readings (none, or an empty list), raises nothing and returns a report
    with [success] False, [consistency_score] 0, no readings counted, the
    defaults for all analysis fields, and the one recommendation
    ["No readings provided"]; with readings and a reference that is a number
    [<= 0], the same report with ["Reference must be > 0"]. *)
Theorem calibration_run_without_input (adapters : registry) (key name : string)
    (raw_data : dict) (message : string) :
  (truthy (get_default raw_data "readings" (PList [])) = false /\
   message = "No readings provided") \/
  (truthy (get_default raw_data "readings" (PList [])) = true /\
   (exists ref, ConstantsDB.as_number (get_default raw_data "reference" (PFloat 1))
                = Ok ref /\ (ref <= 0)%Q) /\
   message = "Reference must be > 0") ->
  run (register_adapter key
         (Some (calibration_adapter calibration_d_space calibration_analysis name))
         adapters) key raw_data
  = Ok [("adapter", PStr name);
        ("success", PBool false);
        ("consistency_score", PFloat (SumRule.py_round 0 6));
        ("drift", PDict []);
        ("d_space_summary",
         PDict [("mean", PInt 0); ("std", PInt 0); ("n_readings", PInt 0)]);
        ("sum_rule", PDict []);
        ("corrected_values", PList []);
        ("recommendations", PList [PStr message])].
Proof.
  intros H. rewrite run_registered. cbn [ingest analyze report calibration_adapter].
  destruct H as [[H ->]|(H & (ref & Href & Hle) & ->)].
  - now apply calibration_pipeline_no_readings.
  - now apply calibration_pipeline_bad_reference with (ref := ref).
Qed.

(** **** Extra X20.
    The sensor fusion adapter, run through the engine on data without
    sensors, raises nothing and returns a report with [success] False,
    [consistency_score] 0, the defaults for all analysis fields
    ([ref_deviation] None) and the one recommendation
    ["No sensors provided"]. *)
Theorem fusion_run_without_sensors (adapters : registry) (key name : string)
    (raw_data : dict) :
  truthy (get_default raw_data "sensors" (PList [])) = false ->
  run (register_adapter key
         (Some (fusion_adapter fusion_d_space fusion_analysis name)) adapters)
      key raw_data
  = Ok [("adapter", PStr name);
        ("success", PBool false);
        ("fused_estimate", PDict [("d_space", PInt 0); ("real_value", PInt 0)]);
        ("consistency_score", PFloat (SumRule.py_round 0 6));
        ("inter_sensor_std", PInt 0);
        ("ref_deviation", PNone);
        ("sensor_quality", PList []);
        ("recommendations", PList [PStr "No sensors provided"])].
Proof.
  intros H. rewrite run_registered. cbn [ingest analyze report fusion_adapter].
  unfold fusion_ingest. rewrite H. reflexivity.
Qed.

(** **** Extra X21.
    The photosynthesis adapter, run through the engine with a mode other
    than the three it knows (and a temperature and CO2 level that [float]
    accepts), raises nothing and returns a failure report whose one
    recommendation names the mode; the report is labelled with the mode
    ["cascade"] and carries the cascade fields, all at their defaults. *)
Theorem photosynthesis_run_unknown_mode (adapters : registry) (key name : string)
    (raw_data : dict) (temp_c co2_ppm : Q) :
  let mode := get_default raw_data "mode" (PStr "cascade") in
  eq_str mode "cascade" = false ->
  eq_str mode "mof_filter" = false ->
  eq_str mode "full_system" = false ->
  py_float float_of_str (get_default raw_data "temperature_c" (PFloat 25)) = Ok temp_c ->
  py_float float_of_str (get_default raw_data "co2_ppm" (PFloat 415)) = Ok co2_ppm ->
  run (register_adapter key
         (Some (photosynthesis_adapter _ingest_cascade _ingest_mof _ingest_full
                  _analyze_cascade _analyze_mof _analyze_full float_of_str
                  py_format name)) adapters)
      key raw_data
  = Ok [("adapter", PStr name);
        ("mode", PStr "cascade");
        ("success", PBool false);
        ("consistency_score", PFloat (SumRule.py_round 0 6));
        ("recommendations",
         PList [PStr ("Unknown mode '" ++ py_format mode ++ "'")%string]);
        ("overall_efficiency", PDict [("value", PNone); ("d_value", PNone)]);
        ("step_analysis", PList []);
        ("bottleneck", PDict []);
        ("gap_to_target", PDict []);
        ("sum_rule", PDict []);
        ("env_corrections", PDict [])].
Proof.
  intros mode H1 H2 H3 Ht Hc. rewrite run_registered.
  cbn [ingest analyze report photosynthesis_adapter].
  unfold photosynthesis_ingest. rewrite Ht, Hc. cbn [bind].
  fold mode. rewrite H1, H2, H3. reflexivity.
Qed.

End Pipelines.

Lemma calibration_run_without_input_witness :
  run (register_adapter "cal"
         (Some (calibration_adapter no_ingest not_reached "calibration")) [])
      "cal" [("readings", PList []); ("reference", PFloat 2)]
  = Ok [("adapter", PStr "calibration");
        ("success", PBool false);
        ("consistency_score", PFloat (SumRule.py_round 0 6));
        ("drift", PDict []);
        ("d_space_summary",
         PDict [("mean", PInt 0); ("std", PInt 0); ("n_readings", PInt 0)]);
        ("sum_rule", PDict []);
        ("corrected_values", PList []);
        ("recommendations", PList [PStr "No readings provided"])].
Proof.
  apply (calibration_run_without_input no_ingest not_reached [] "cal" "calibration"
           [("readings", PList []); ("reference", PFloat 2)] "No readings provided").
  left. split; reflexivity.
Defined.

Lemma fusion_run_without_sensors_witness :
  run (register_adapter "fusion"
         (Some (fusion_adapter no_ingest not_reached "sensor_fusion")) [])
      "fusion" [("reference", PFloat 1)]
  = Ok [("adapter", PStr "sensor_fusion");
        ("success", PBool false);
        ("fused_estimate", PDict [("d_space", PInt 0); ("real_value", PInt 0)]);
        ("consistency_score", PFloat (SumRule.py_round 0 6));
        ("inter_sensor_std", PInt 0);
        ("ref_deviation", PNone);
        ("sensor_quality", PList []);
        ("recommendations", PList [PStr "No sensors provided"])].
Proof.
  apply (fusion_run_without_sensors no_ingest not_reached [] "fusion" "sensor_fusion"
           [("reference", PFloat 1)]).
  reflexivity.
Defined.

Lemma photosynthesis_run_unknown_mode_witness :
  run (register_adapter "photo"
         (Some (photosynthesis_adapter no_ingest_env no_ingest no_ingest_env
                  not_reached not_reached not_reached no_float
                  (fun v => match v with PStr s => s | _ => "" end)
                  "photosynthesis")) [])
      "photo" [("mode", PStr "turbo")]
  = Ok [("adapter", PStr "photosynthesis");
        ("mode", PStr "cascade");
        ("success", PBool false);
        ("consistency_score", PFloat (SumRule.py_round 0 6));
        ("recommendations", PList [PStr "Unknown mode 'turbo'"]);
        ("overall_efficiency", PDict [("value", PNone); ("d_value", PNone)]);
        ("step_analysis", PList []);
        ("bottleneck", PDict []);
        ("gap_to_target", PDict []);
        ("sum_rule", PDict []);
        ("env_corrections", PDict [])].
Proof.
  apply (photosynthesis_run_unknown_mode no_ingest_env no_ingest no_ingest_env
           not_reached not_reached not_reached no_float
           (fun v => match v with PStr s => s | _ => "" end)
           [] "photo" "photosynthesis" [("mode", PStr "turbo")] 25 415);
    reflexivity.
Defined.

End EngineFacts.

(** ** Facts about the transforms and the ladder *)

Module TransformsFacts.
Import Core Transforms Ladder CoreFacts.
Local Open Scope R_scope.


Lemma ln_py_pow_PHI d : ln (py_pow PHI d) = d * ln PHI.
Proof. unfold py_pow, Rpower. apply ln_exp. Qed.

Lemma D_of_x_from_D d : D (1 / py_pow PHI d) = Ok d.
Proof.
  pose proof (py_pow_PHI_pos d) as Hp. pose proof ln_PHI_pos as Hl.
  assert (Hx : 0 < 1 / py_pow PHI d) by (apply Rdiv_lt_0_compat; lra).
  rewrite (D_pos _ Hx). f_equal.
  replace (1 / py_pow PHI d) with (/ py_pow PHI d) by (field; lra).
  rewrite ln_Rinv by assumption. rewrite ln_py_pow_PHI. field. lra.
Qed.



Lemma ln_quotient x y : 0 < x -> 0 < y -> ln (x / y) = ln x - ln y.
Proof.
  intros Hx Hy. unfold Rdiv.
  rewrite ln_mult by (try apply Rinv_0_lt_compat; assumption).
  rewrite ln_Rinv by assumption. reflexivity.
Qed.

(** **** Extra X23.
    [D] turns products into sums and quotients into differences, and it
    decreases: over the reals, for positive [x] and [y],
    [D(x * y) = D(x) + D(y)], [D(x / y) = D(x) - D(y)], and [x < y] gives
    [D(y) < D(x)]. *)
Theorem D_linearises (x y : R) : 0 < x -> 0 < y ->
  exists a b,
    D x = Ok a /\ D y = Ok b /\
    D (x * y) = Ok (a + b) /\ D (x / y) = Ok (a - b) /\
    (x < y -> b < a).
Proof.
  intros Hx Hy. pose proof ln_PHI_pos as Hl.
  exists (- ln x / ln PHI), (- ln y / ln PHI).
  assert (Hxy : 0 < x * y) by (apply Rmult_lt_0_compat; assumption).
  assert (Hq : 0 < x / y) by (apply Rdiv_lt_0_compat; assumption).
  rewrite !D_pos by assumption.
  split; [reflexivity|]. split; [reflexivity|]. split; [|split].
  - f_equal. rewrite ln_mult by assumption. field. lra.
  - f_equal. rewrite ln_quotient by assumption. field. lra.
  - intros Hlt. pose proof (ln_increasing x y Hx Hlt) as Hln.
    unfold Rdiv. apply Rmult_lt_compat_r; [apply Rinv_0_lt_compat; lra | lra].
Qed.

Lemma D_linearises_witness :
  0 < 2 /\ 0 < 3 /\
  exists a b,
    D 2 = Ok a /\ D 3 = Ok b /\
    D (2 * 3) = Ok (a + b) /\ D (2 / 3) = Ok (a - b) /\
    (2 < 3 -> b < a).
Proof. split; [lra|]. split; [lra | apply (D_linearises 2 3); lra]. Defined.

Lemma d_space_step_pos a b : 0 < a -> 0 < b ->
  d_space_step a b = Ok (- ln a / ln PHI - - ln b / ln PHI).
Proof.
  intros Ha Hb. unfold d_space_step.
  destruct (Rle_dec a 0); [lra|]. destruct (Rle_dec b 0); [lra|].
  rewrite !D_pos by assumption. reflexivity.
Qed.

(** **** Extra X24.
    [d_space_step] raises [ValueError("Scales must be > 0")] exactly when one
    of the scales is [<= 0]; on positive scales it is, over the reals, the
    logarithm of [to_scale / from_scale] to the base PHI, so that steps add
    up along a path and reverse their sign with their direction. *)
Theorem d_space_step_steps (a b c : R) :
  (a <= 0 \/ b <= 0 -> d_space_step a b = Raise (ValueError "Scales must be > 0")) /\
  (0 < a -> 0 < b -> 0 < c ->
   exists ab bc ac ba,
     d_space_step a b = Ok ab /\ d_space_step b c = Ok bc /\
     d_space_step a c = Ok ac /\ d_space_step b a = Ok ba /\
     ab = ln (b / a) / ln PHI /\ ac = ab + bc /\ ba = - ab).
Proof.
  split.
  - intros H. unfold d_space_step. destruct (Rle_dec a 0); [reflexivity|].
    destruct (Rle_dec b 0); [reflexivity | lra].
  - intros Ha Hb Hc. pose proof ln_PHI_pos as Hl.
    rewrite !d_space_step_pos by assumption.
    do 4 eexists. repeat (split; [reflexivity|]). split; [|split].
    + rewrite ln_quotient by assumption. field. lra.
    + field. lra.
    + field. lra.
Qed.

Lemma d_space_step_steps_witness :
  (0 < 1 /\ 0 < 2 /\ 0 < 4) /\
  exists ab bc ac ba,
    d_space_step 1 2 = Ok ab /\ d_space_step 2 4 = Ok bc /\
    d_space_step 1 4 = Ok ac /\ d_space_step 2 1 = Ok ba /\
    ab = ln (2 / 1) / ln PHI /\ ac = ab + bc /\ ba = - ab.
Proof.
  split; [lra | apply (proj2 (d_space_step_steps 1 2 4)); lra].
Defined.

Lemma PHI_square : PHI * PHI = PHI + 1.
Proof.
  unfold PHI. assert (H : sqrt 5 * sqrt 5 = 5) by (apply sqrt_sqrt; lra).
  field_simplify. rewrite <- Rsqr_pow2. unfold Rsqr. rewrite H. field.
Qed.

Lemma phi_power_succ n : phi_power (n + 1) = phi_power n * PHI.
Proof.
  unfold phi_power, py_pow. rewrite plus_IZR, Rpower_plus, Rpower_1; [reflexivity|].
  apply PHI_pos.
Qed.

Lemma py_round_int_near x : Rabs (IZR (py_round_int x) - x) <= 1 / 2.
Proof.
  unfold py_round_int. destruct (archimed x) as [Hup Hlow].
  rewrite <- (Z.sub_add 1 (up x)), plus_IZR in Hup, Hlow.
  set (f := (up x - 1)%Z) in *. change (IZR 1) with 1 in *.
  destruct (Rlt_dec (x - IZR f) (1 / 2)) as [H1|H1].
  - apply Rabs_le. lra.
  - destruct (Rlt_dec (1 / 2) (x - IZR f)) as [H2|H2].
    + rewrite plus_IZR. apply Rabs_le. lra.
    + destruct (Z.even f); rewrite ?plus_IZR; apply Rabs_le; lra.
Qed.

Lemma nearest_loop_some n scales : forall m0,
  Forall (fun e => (dimension m0 <= fst e)%Z) scales ->
  StronglySorted (fun e e' => (fst e <= fst e')%Z) scales ->
  exists m,
    nearest_loop n scales (Some m0) (Some (Z.abs (dimension m0 - n)))
    = (Some m, Some (Z.abs (dimension m - n))) /\
    (m = m0 \/ In (dimension m, (label m, description m)) scales) /\
    (Z.abs (dimension m - n) <= Z.abs (dimension m0 - n))%Z /\
    (Z.abs (dimension m - n) = Z.abs (dimension m0 - n) -> m = m0) /\
    Forall (fun e => (Z.abs (dimension m - n) <= Z.abs (fst e - n))%Z /\
                     (Z.abs (fst e - n) = Z.abs (dimension m - n) ->
                      (dimension m <= fst e)%Z)) scales.
Proof.
  induction scales as [|[dim [lbl desc]] rest IH]; intros m0 Hge Hsorted.
  - exists m0. cbn [nearest_loop]. repeat split; auto. lia.
  - inversion Hge as [|? ? Hdim Hrest]; subst. cbn [fst] in Hdim.
    inversion Hsorted as [|? ? Hsr Hall]; subst.
    cbn [nearest_loop]. destruct (Z.ltb_spec (Z.abs (dim - n)) (Z.abs (dimension m0 - n)))
      as [Hlt|Hnlt].
    + destruct (IH {| dimension := dim; label := lbl; description := desc |})
        as (m & E & Hm & Hle & Htie & Hall'); [exact Hall | exact Hsr |].
      cbn [dimension] in *. exists m. split; [exact E|]. split; [|split; [|split]].
      * right. destruct Hm as [->|Hm]; [now left | now right].
      * lia.
      * intros Heq. exfalso. lia.
      * constructor; [|exact Hall']. cbn [fst]. split; [lia|].
        intros Heq. rewrite (Htie (eq_sym Heq)). cbn [dimension]. lia.
    + destruct (IH m0 Hrest Hsr) as (m & E & Hm & Hle & Htie & Hall').
      exists m. split; [exact E|]. split; [|split; [|split]].
      * destruct Hm as [->|Hm]; [now left | right; now right].
      * exact Hle.
      * exact Htie.
      * constructor; [|exact Hall']. cbn [fst]. split; [lia|].
        intros Heq. assert (Em : m = m0) by (apply Htie; lia). subst m. exact Hdim.
Qed.

Lemma nearest_loop_first n dim lbl desc rest :
  nearest_loop n ((dim, (lbl, desc)) :: rest) None None
  = nearest_loop n rest
      (Some {| dimension := dim; label := lbl; description := desc |})
      (Some (Z.abs (dim - n))).
Proof. reflexivity. Qed.

Lemma KNOWN_SCALES_sorted :
  StronglySorted (fun e e' => (fst e <= fst e')%Z) KNOWN_SCALES.
Proof.
  unfold KNOWN_SCALES.
  repeat (constructor; [|repeat constructor; cbn [fst]; lia]). constructor.
Qed.

(** **** Extra X25.
    [find_nearest_scale] raises nothing.  For a value [<= 0] it returns the
    error record.  For a positive value it rounds [log(value) / log(PHI)]
    to an integer [n] (at most 1/2 away) and returns an entry of
    [KNOWN_SCALES] whose dimension is nearest to [n], with its distance;
    among dimensions equally near it is the smallest. *)
Theorem find_nearest_scale_nearest (value : R) :
  (value <= 0 -> find_nearest_scale value = Ok (NearestError "value must be > 0")) /\
  (0 < value ->
   exists n m,
     find_nearest_scale value
     = Ok (Nearest value (ln value / ln PHI) n (Some m)
             (Some (Z.abs (dimension m - n)))) /\
     Rabs (IZR n - ln value / ln PHI) <= 1 / 2 /\
     In (dimension m, (label m, description m)) KNOWN_SCALES /\
     forall dim, In dim known_dimensions ->
       (Z.abs (dimension m - n) <= Z.abs (dim - n))%Z /\
       (Z.abs (dim - n) = Z.abs (dimension m - n) -> (dimension m <= dim)%Z)).
Proof.
  unfold find_nearest_scale. split; intros Hv.
  - destruct (Rle_dec value 0) as [_|Hgt]; [reflexivity | lra].
  - destruct (Rle_dec value 0) as [Hle|_]; [lra|].
    rewrite (py_log_pos value Hv), py_log_PHI. cbn [bind].
    rewrite py_div_nonzero by (pose proof ln_PHI_pos; lra). cbn [bind].
    set (n := py_round_int (ln value / ln PHI)).
    pose proof KNOWN_SCALES_sorted as Hs.
    unfold known_dimensions. unfold KNOWN_SCALES in *.
    inversion Hs as [|e rest Hsr Hall]; subst.
    rewrite nearest_loop_first.
    destruct (nearest_loop_some n _
                {| dimension := 1; label := "U(1) trivial"; description := "F(1) = 1" |}
                Hall Hsr) as (m & E & Hm & Hle & Htie & Hall').
    cbn [dimension] in E. rewrite E.
    exists n, m. split; [reflexivity|]. split; [apply py_round_int_near|]. split.
    + destruct Hm as [->|Hm]; [now left | now right].
    + intros dim Hin. apply in_map_iff in Hin as (e & <- & [<-|He]).
      * cbn [fst]. split; [exact Hle|]. intros Heq.
        rewrite (Htie (eq_sym Heq)). cbn [dimension]. lia.
      * rewrite List.Forall_forall in Hall'. now apply Hall'.
Qed.

Lemma find_nearest_scale_nearest_witness :
  0 < 1 /\
  exists n m,
    find_nearest_scale 1
    = Ok (Nearest 1 (ln 1 / ln PHI) n (Some m) (Some (Z.abs (dimension m - n)))) /\
    Rabs (IZR n - ln 1 / ln PHI) <= 1 / 2 /\
    In (dimension m, (label m, description m)) KNOWN_SCALES /\
    forall dim, In dim known_dimensions ->
      (Z.abs (dimension m - n) <= Z.abs (dim - n))%Z /\
      (Z.abs (dim - n) = Z.abs (dimension m - n) -> (dimension m <= dim)%Z).
Proof.
  split; [lra | apply (proj2 (find_nearest_scale_nearest 1)); lra].
Defined.

Lemma Rltb_true a b : a < b -> Rltb a b = true.
Proof. intros H. unfold Rltb. destruct (Rlt_dec a b); [reflexivity | contradiction]. Qed.


(** **** Extra X27.
    The clamp of the photosynthesis adapter keeps [D] inside its domain:
    for every real [eta], [D(_clamp_efficiency(eta))] raises nothing and
    lies between 0 and [D(1e-10)]; an efficiency already in
    [[1e-10, 1]] is not changed. *)
Theorem clamp_efficiency_in_domain (eta : R) :
  exists d d_max,
    D (_clamp_efficiency eta) = Ok d /\ D 1e-10 = Ok d_max /\
    0 <= d <= d_max /\
    (1e-10 <= eta <= 1 -> _clamp_efficiency eta = eta).
Proof.
  pose proof ln_PHI_pos as Hl.
  assert (Hc : 1e-10 <= _clamp_efficiency eta <= 1).
  { unfold _clamp_efficiency. split; [apply Rmax_l|].
    apply Rmax_lub; [lra | apply Rmin_r]. }
  set (c := _clamp_efficiency eta) in *.
  exists (- ln c / ln PHI), (- ln 1e-10 / ln PHI).
  rewrite !D_pos by lra. split; [reflexivity|]. split; [reflexivity|].
  assert (Hln1 : ln c <= 0).
  { rewrite <- ln_1. destruct (proj2 Hc) as [H|H]; [|rewrite H; lra].
    left. apply ln_increasing; lra. }
  assert (Hln2 : ln 1e-10 <= ln c).
  { destruct (proj1 Hc) as [H|H]; [|rewrite H; lra].
    left. apply ln_increasing; lra. }
  split; [split|].
  - unfold Rdiv. apply Rmult_le_pos; [lra | left; apply Rinv_0_lt_compat; lra].
  - unfold Rdiv. apply Rmult_le_compat_r; [left; apply Rinv_0_lt_compat; lra | lra].
  - intros [H1 H2]. unfold c, _clamp_efficiency.
    rewrite Rmin_left by lra. apply Rmax_right. lra.
Qed.

End TransformsFacts.

(** ** Facts about the photosynthesis helpers *)

Module PhotosynthesisFacts.
Import PyVal PhotosynthesisConstants.
Local Open Scope Q_scope.







Lemma py_max_floor a b : b <= py_max a b.
Proof.
  unfold py_max. destruct (Qle_bool b a) eqn:E; [now apply Qle_bool_iff | lra].
Qed.

Lemma get_number_cases entry k default :
  (exists q, get_number entry k default = Ok q) \/
  get_number entry k default = Raise TypeError.
Proof.
  unfold get_number. destruct (dict_get k entry) as [[| | | | | |]|]; cbn; eauto.
Qed.

(** **** Extra X29.
    [mof_score] never divides by zero: the cost is clamped at 0.01 from
    below, so the only error is the [TypeError] of a field that is not a
    number.  When the fields are numbers it returns the score, which is not
    negative when capacity, selectivity and thermal stability are not; for
    the empty entry it is 0. *)
Theorem mof_score_total (entry : dict) :
  mof_score entry <> Raise ZeroDivisionError /\
  (forall capacity selectivity thermal cost,
     get_number entry "co2_capacity_mmol_g" 0 = Ok capacity ->
     get_number entry "co2_n2_selectivity" 1 = Ok selectivity ->
     get_number entry "thermal_stability_c" 200 = Ok thermal ->
     get_number entry "cost_relative" 1 = Ok cost ->
     exists score,
       mof_score entry = Ok score /\
       (0 <= capacity -> 0 <= selectivity -> 0 <= thermal -> 0 <= score)) /\
  (exists zero, mof_score [] = Ok zero /\ zero == 0).
Proof.
  assert (Hdiv : forall a c, SumRule.py_div a (py_max c 0.01) = Ok (a / py_max c 0.01)).
  { intros a c. apply SumRuleFacts.py_div_rational.
    pose proof (py_max_floor c 0.01). lra. }
  assert (H600 : forall t, SumRule.py_div t 600 = Ok (t / 600)).
  { intros t. apply SumRuleFacts.py_div_rational. discriminate. }
  split; [|split].
  - unfold mof_score.
    destruct (get_number_cases entry "co2_capacity_mmol_g" 0) as [[q1 ->]| ->];
      [|discriminate]. cbn [bind].
    destruct (get_number_cases entry "co2_n2_selectivity" 1) as [[q2 ->]| ->];
      [|discriminate]. cbn [bind].
    destruct (get_number_cases entry "thermal_stability_c" 200) as [[q3 ->]| ->];
      [|discriminate]. cbn [bind]. rewrite H600. cbn [bind].
    destruct (get_number_cases entry "cost_relative" 1) as [[q4 ->]| ->];
      [|discriminate]. cbn [bind]. rewrite Hdiv. discriminate.
  - intros capacity selectivity thermal cost E1 E2 E3 E4.
    unfold mof_score. rewrite E1, E2, E3. cbn [bind]. rewrite H600. cbn [bind].
    rewrite E4. cbn [bind]. rewrite Hdiv. eexists. split; [reflexivity|].
    intros H1 H2 H3. pose proof (py_max_floor cost 0.01) as Hc.
    assert (Hs : 0 <= thermal / 600) by (apply Qle_shift_div_l; lra).
    assert (Ha : 0 <= (if get_flag entry "abundant" then 1.5 else 1))
      by (destruct (get_flag entry "abundant"); discriminate).
    assert (Hh : 0 <= (if get_flag entry "self_healing" then 1.2 else 1))
      by (destruct (get_flag entry "self_healing"); discriminate).
    assert (Hw : 0 <= (if get_flag entry "water_stable" then 1.1 else 0.9))
      by (destruct (get_flag entry "water_stable"); discriminate).
    set (stability := thermal / 600) in *.
    set (abundant := if get_flag entry "abundant" then 1.5 else 1) in *.
    set (healing := if get_flag entry "self_healing" then 1.2 else 1) in *.
    set (water := if get_flag entry "water_stable" then 1.1 else 0.9) in *.
    clearbody stability abundant healing water.
    apply Qle_shift_div_l; [lra|]. rewrite Qmult_0_l.
    repeat apply Qmult_le_0_compat; assumption.
  - eexists. split; [reflexivity|]. reflexivity.
Qed.

Lemma mof_score_total_witness :
  exists score,
    mof_score ZIF_8 = Ok score /\
    (0 <= 1.2 -> 0 <= 15 -> 0 <= 550 -> 0 <= score).
Proof.
  apply (proj1 (proj2 (mof_score_total ZIF_8)) 1.2 15 550 1); reflexivity.
Defined.

End PhotosynthesisFacts.

(** ** Facts about the scorecard *)

Module ScorecardFacts.
Import PyVal ConstantsDB ConstantsTable Scorecard ConstantsDBMore.
Local Open Scope Q_scope.

Lemma ppm_values_spec look cs :
  Forall (fun c => has_ppm (look c) = true) cs ->
  exists ppms,
    ppm_values look cs = Ok ppms /\
    map snd ppms = map (fun c => ppm_of (look c)) cs /\
    Forall (fun p => as_number (fst p) = Ok (snd p) /\
                     exists c, In c cs /\
                       dict_get "deviation_ppm" (look c) = Some (fst p)) ppms.
Proof.
  induction 1 as [|c cs Hc Hcs (ppms & E & Hm & Hf)]; cbn [ppm_values map].
  - exists []. repeat split. constructor.
  - unfold has_ppm in Hc. unfold getitem, ppm_of.
    destruct (dict_get "deviation_ppm" (look c)) as [v|] eqn:Ev; [|discriminate].
    cbn [bind]. destruct (as_number v) as [q|] eqn:Eq; [|discriminate].
    cbn [bind]. rewrite E. cbn [bind]. exists ((v, q) :: ppms).
    split; [reflexivity|]. split; [cbn [map snd]; now rewrite Hm|].
    constructor.
    + cbn [fst snd]. split; [exact Eq|]. exists c. split; [now left | exact Ev].
    + eapply Forall_impl; [exact Hf|]. intros p [Hp (c' & Hin & Hc')].
      split; [exact Hp|]. exists c'. split; [now right | exact Hc'].
Qed.

Lemma Zsum_count_key s acc :
  Zsum (map snd (count_key s acc)) = (Zsum (map snd acc) + 1)%Z.
Proof.
  induction acc as [|[k n] acc IH]; cbn [count_key map snd Zsum fold_right].
  - lia.
  - destruct (key_eq s k); cbn [map snd Zsum fold_right].
    + fold (Zsum (map snd acc)). lia.
    + fold (Zsum (map snd (count_key s acc))) (Zsum (map snd acc)). rewrite IH. lia.
Qed.

Lemma Forall_count_key (P : pyval -> Prop) s acc :
  P s -> Forall (fun kn => (1 <= snd kn)%Z /\ P (fst kn)) acc ->
  Forall (fun kn => (1 <= snd kn)%Z /\ P (fst kn)) (count_key s acc).
Proof.
  intros Hs. induction 1 as [|[k n] acc [Hn Hk] Hacc IH]; cbn [count_key].
  - constructor; [|constructor]. cbn [fst snd]. split; [lia | exact Hs].
  - destruct (key_eq s k).
    + constructor; [|exact Hacc]. cbn [fst snd] in *. split; [lia | exact Hk].
    + constructor; [|exact IH]. now split.
Qed.

Lemma count_key_keys s acc :
  map fst (count_key s acc)
  = if existsb (fun k => key_eq s k) (map fst acc) then map fst acc
    else map fst acc ++ [s].
Proof.
  induction acc as [|[k n] acc IH]; cbn [count_key map fst existsb app]; [reflexivity|].
  destruct (key_eq s k); cbn [map fst orb]; [reflexivity|].
  rewrite IH. now destruct (existsb (fun k0 => key_eq s k0) (map fst acc)).
Qed.

(** Each key differs from the keys before it. *)
Lemma distinct_count_key s acc :
  StronglySorted (fun a b : pyval => key_eq b a = false) (map fst acc) ->
  StronglySorted (fun a b : pyval => key_eq b a = false) (map fst (count_key s acc)).
Proof.
  intros Hd. rewrite count_key_keys.
  destruct (existsb (fun k => key_eq s k) (map fst acc)) eqn:E; [exact Hd|].
  assert (Hnew : Forall (fun k => key_eq s k = false) (map fst acc)).
  { apply List.Forall_forall. intros k Hk.
    destruct (key_eq s k) eqn:Ek; [|reflexivity].
    assert (existsb (fun k0 => key_eq s k0) (map fst acc) = true)
      by (apply existsb_exists; eauto). congruence. }
  clear E. induction Hd as [|k ks Hks IH Hall]; cbn [app].
  - repeat constructor.
  - inversion Hnew as [|? ? Hk Hnew']; subst.
    constructor; [apply IH, Hnew'|].
    apply Forall_app. split; [exact Hall | repeat constructor; exact Hk].
Qed.

Lemma count_sectors_spec look (P : pyval -> Prop) cs :
  Forall (fun c => countable (look c) = true) cs ->
  (forall c s, In c cs -> dict_get "sector" (look c) = Some s -> P s) ->
  forall acc,
    Forall (fun kn => (1 <= snd kn)%Z /\ P (fst kn)) acc ->
    StronglySorted (fun a b : pyval => key_eq b a = false) (map fst acc) ->
    exists out,
      count_sectors look cs acc = Ok out /\
      Zsum (map snd out) = (Zsum (map snd acc) + Z.of_nat (length cs))%Z /\
      Forall (fun kn => (1 <= snd kn)%Z /\ P (fst kn)) out /\
      StronglySorted (fun a b : pyval => key_eq b a = false) (map fst out).
Proof.
  induction 1 as [|c cs Hc Hcs IH]; intros HP acc Hacc Hd.
  - exists acc. cbn [count_sectors length]. repeat split; try assumption. lia.
  - cbn [count_sectors]. unfold countable in Hc. apply andb_prop in Hc as [_ Hc].
    unfold getitem. destruct (dict_get "sector" (look c)) as [s|] eqn:Es; [|discriminate].
    cbn [bind]. rewrite Hc.
    destruct (IH (fun c' s' Hin => HP c' s' (or_intror Hin)) (count_key s acc))
      as (out & E & Hsum & Hall & Hdist).
    + apply Forall_count_key; [|exact Hacc]. apply (HP c s); [now left | exact Es].
    + apply distinct_count_key, Hd.
    + exists out. split; [exact E|]. split; [|split; assumption].
      rewrite Hsum, Zsum_count_key. cbn [length]. lia.
Qed.

Lemma py_min_spec best l :
  In (py_min best l) (best :: l) /\
  Forall (fun p => snd (py_min best l) <= snd p) (best :: l).
Proof.
  revert best. induction l as [|item l IH]; intros best; cbn [py_min].
  - split; [now left|]. constructor; [lra | constructor].
  - destruct (Qle_bool (snd best) (snd item)) eqn:E; cbn [negb].
    + destruct (IH best) as [Hin Hall]. split.
      * destruct Hin as [<-|Hin]; [now left | right; now right].
      * inversion Hall as [|? ? Hb Hl]; subst.
        constructor; [exact Hb|]. constructor; [|exact Hl].
        apply Qle_bool_iff in E. lra.
    + destruct (IH item) as [Hin Hall]. split; [now right|].
      inversion Hall as [|? ? Hb Hl]; subst.
      constructor; [|exact Hall].
      apply Qle_bool_total, Qle_bool_iff in E. lra.
Qed.

Lemma py_max_spec best l :
  In (py_max best l) (best :: l) /\
  Forall (fun p => snd p <= snd (py_max best l)) (best :: l).
Proof.
  revert best. induction l as [|item l IH]; intros best; cbn [py_max].
  - split; [now left|]. constructor; [lra | constructor].
  - destruct (Qle_bool (snd item) (snd best)) eqn:E; cbn [negb].
    + destruct (IH best) as [Hin Hall]. split.
      * destruct Hin as [<-|Hin]; [now left | right; now right].
      * inversion Hall as [|? ? Hb Hl]; subst.
        constructor; [exact Hb|]. constructor; [|exact Hl].
        apply Qle_bool_iff in E. lra.
    + destruct (IH item) as [Hin Hall]. split; [now right|].
      inversion Hall as [|? ? Hb Hl]; subst.
      constructor; [|exact Hall].
      apply Qle_bool_total, Qle_bool_iff in E. lra.
Qed.

Lemma Qsum_bounds lo hi l :
  Forall (fun q => lo <= q <= hi) l ->
  inject_Z (Z.of_nat (length l)) * lo <= SumRule.Qsum l /\
  SumRule.Qsum l <= inject_Z (Z.of_nat (length l)) * hi.
Proof.
  induction 1 as [|q l [Hlo Hhi] Hl [IH1 IH2]].
  - cbn [length SumRule.Qsum fold_right]. change (inject_Z (Z.of_nat 0)) with 0. lra.
  - cbn [length SumRule.Qsum fold_right]. fold (SumRule.Qsum l).
    rewrite Nat2Z.inj_succ, <- Z.add_1_r, inject_Z_plus.
    change (inject_Z 1) with 1. lra.
Qed.

Lemma mean_bounds lo hi q l :
  Forall (fun x => lo <= x <= hi) (q :: l) ->
  exists m,
    SumRule.py_div (SumRule.py_sum (q :: l)) (inject_Z (Z.of_nat (length (q :: l))))
    = Ok m /\
    lo - (1 # 20) <= SumRule.py_round m 1 <= hi + (1 # 20).
Proof.
  intros Hall. destruct (Qsum_bounds lo hi _ Hall) as [H1 H2].
  set (n := inject_Z (Z.of_nat (length (q :: l)))) in *.
  assert (Hn : 0 < n).
  { unfold n. change 0 with (inject_Z 0). rewrite <- Zlt_Qlt. cbn [length]. lia. }
  rewrite SumRuleFacts.py_div_rational by lra. eexists. split; [reflexivity|].
  set (s := SumRule.py_sum (q :: l)).
  assert (Hs : s == SumRule.Qsum (q :: l)) by apply SumRuleFacts.py_sum_Qsum.
  assert (Hm : lo <= s / n <= hi).
  { split; [apply Qle_shift_div_l | apply Qle_shift_div_r]; try assumption;
      rewrite Hs; lra. }
  rewrite py_round_one.
  pose proof (round_half_even_near (s / n * 10)) as Hnear.
  apply Qabs_Qle_condition in Hnear as [Ha Hb].
  set (k := inject_Z (SumRule.round_half_even (s / n * 10))) in *.
  clearbody k. set (m := s / n) in *. clearbody m.
  split.
  - apply Qle_shift_div_l; lra.
  - apply Qle_shift_div_r; lra.
Qed.

Lemma positive_ppm_pos d : positive_ppm d = true -> 0 < ppm_of d.
Proof.
  unfold positive_ppm. intros H. destruct (Qle_bool (ppm_of d) 0) eqn:E; [discriminate|].
  destruct (Qlt_le_dec 0 (ppm_of d)) as [Hlt|Hle]; [exact Hlt|].
  apply Qle_bool_iff in Hle. congruence.
Qed.

Lemma countable_has_ppm (look : loc -> dict) cs :
  Forall (fun c => countable (look c) = true) cs ->
  Forall (fun c => has_ppm (look c) = true) cs.
Proof.
  intros H. eapply Forall_impl; [exact H|]. intros c Hc. cbn beta in *.
  unfold countable in Hc. now apply andb_prop in Hc as [Hc _].
Qed.

(** **** Extra X30.
    On a table whose records have a number for a deviation and a hashable
    sector, [scorecard] raises nothing.  [total_constants] is the size of
    the table and [non_exact] the number of records with a positive
    deviation; the sector counts are all at least 1, belong to sectors of
    the table, no sector is counted under two keys, and the counts add up
    to [total_constants].  Without a positive deviation [min_ppm],
    [max_ppm] and [mean_ppm] are 0; otherwise [min_ppm] and [max_ppm] are
    deviations of the table, positive, that bound every positive deviation,
    and [mean_ppm] lies between them up to its rounding of 0.05. *)
Theorem scorecard_counts (look : loc -> dict) (db : list loc) :
  Forall (fun c => countable (look c) = true) db ->
  let positive := List.filter positive_ppm (map look db) in
  exists sc,
    scorecard look db = Ok sc /\
    total_constants sc = Z.of_nat (length db) /\
    non_exact sc = Z.of_nat (length positive) /\
    (non_exact sc <= total_constants sc)%Z /\
    Zsum (map snd (sectors sc)) = total_constants sc /\
    Forall (fun kn => (1 <= snd kn)%Z /\
                      exists c, In c db /\ dict_get "sector" (look c) = Some (fst kn))
      (sectors sc) /\
    StronglySorted (fun a b : pyval => key_eq b a = false) (map fst (sectors sc)) /\
    (positive = [] ->
     min_ppm sc = PInt 0 /\ max_ppm sc = PInt 0 /\ mean_ppm sc = PInt 0) /\
    (positive <> [] ->
     exists lo hi mean,
       as_number (min_ppm sc) = Ok lo /\ as_number (max_ppm sc) = Ok hi /\
       mean_ppm sc = PFloat mean /\
       0 < lo /\
       Forall (fun d => lo <= ppm_of d <= hi) positive /\
       Exists (fun d => dict_get "deviation_ppm" d = Some (min_ppm sc)) positive /\
       Exists (fun d => dict_get "deviation_ppm" d = Some (max_ppm sc)) positive /\
       lo - (1 # 20) <= mean <= hi + (1 # 20)).
Proof.
  intros Hok positive. pose proof (countable_has_ppm look db Hok) as Hppm.
  unfold scorecard.
  rewrite (filter_py_filter ConstantsDB.non_exact positive_ppm).
  2:{ eapply Forall_impl; [exact Hppm|]. intros c Hc. now apply non_exact_positive. }
  cbn [bind]. set (kept := List.filter (fun c => positive_ppm (look c)) db).
  assert (Hkept : map look kept = positive) by apply map_filter_look.
  assert (Hpos : Forall (fun c => positive_ppm (look c) = true) kept).
  { apply List.Forall_forall. intros c Hc. now apply filter_In in Hc as [_ Hc]. }
  assert (Hsub : forall c, In c kept -> In c db).
  { intros c Hc. now apply filter_In in Hc as [Hc _]. }
  destruct (ppm_values_spec look kept) as (ppms & -> & Hsnd & Hmem);
    [apply Forall_filter; exact Hppm|].
  cbn [bind].
  destruct (count_sectors_spec look
              (fun s => exists c, In c db /\ dict_get "sector" (look c) = Some s)
              db Hok) with (acc := @nil (pyval * Z))
    as (counted & -> & Hsum & Hall & Hdist);
    [intros c s Hc Hs; eauto | constructor | constructor |].
  cbn [bind].
  assert (Hlen : length ppms = length kept).
  { rewrite <- (length_map snd ppms), Hsnd. apply length_map. }
  assert (Hlenpos : length positive = length kept).
  { rewrite <- Hkept. apply length_map. }
  assert (Hbound : (Z.of_nat (length kept) <= Z.of_nat (length db))%Z).
  { apply Nat2Z.inj_le. apply filter_length_le. }
  destruct ppms as [|p rest].
  - destruct kept as [|c krest] eqn:Ek; [|discriminate Hlen].
    cbn [bind]. eexists. split; [reflexivity|].
    cbn [total_constants non_exact min_ppm max_ppm mean_ppm sectors].
    split; [reflexivity|]. split; [now rewrite Hlenpos|]. split; [exact Hbound|].
    split; [exact Hsum|]. split; [exact Hall|]. split; [exact Hdist|].
    split; [auto|]. intros Hne. exfalso. apply Hne. now rewrite <- Hkept.
  - assert (Hq : Forall (fun q => 0 < q) (map snd (p :: rest))).
    { rewrite Hsnd. apply List.Forall_forall. intros q Hin.
      apply in_map_iff in Hin as (c & <- & Hc). apply positive_ppm_pos.
      rewrite List.Forall_forall in Hpos. now apply Hpos. }
    destruct (py_min_spec p rest) as [Hmin_in Hmin]. 
    destruct (py_max_spec p rest) as [Hmax_in Hmax].
    set (pmin := py_min p rest) in *. set (pmax := py_max p rest) in *.
    assert (Hrange : Forall (fun q => snd pmin <= q <= snd pmax) (map snd (p :: rest))).
    { apply List.Forall_forall. intros q Hin. apply in_map_iff in Hin as (p' & <- & Hp').
      rewrite List.Forall_forall in Hmin, Hmax. split; [now apply Hmin | now apply Hmax]. }
    destruct (mean_bounds (snd pmin) (snd pmax) (snd p) (map snd rest) Hrange)
      as (m & Em & Hm).
    change (snd p :: map snd rest) with (map snd (p :: rest)) in Em.
    rewrite length_map in Em. rewrite Em. cbn [bind].
    eexists. split; [reflexivity|].
    cbn [total_constants non_exact min_ppm max_ppm mean_ppm sectors].
    fold pmin pmax.
    split; [reflexivity|]. split; [now rewrite Hlenpos|]. split; [exact Hbound|].
    split; [exact Hsum|]. split; [exact Hall|]. split; [exact Hdist|].
    split.
    { intros Hnil. exfalso. rewrite Hnil in Hlenpos. rewrite <- Hlen in Hlenpos.
      discriminate Hlenpos. }
    intros _. rewrite List.Forall_forall in Hmem.
    destruct (Hmem pmin Hmin_in) as [Enmin (cmin & Hcmin & Ecmin)].
    destruct (Hmem pmax Hmax_in) as [Enmax (cmax & Hcmax & Ecmax)].
    exists (snd pmin), (snd pmax), (SumRule.py_round m 1).
    split; [exact Enmin|]. split; [exact Enmax|]. split; [reflexivity|].
    split; [|split; [|split; [|split]]].
    + rewrite List.Forall_forall in Hq. apply Hq. now apply in_map.
    + rewrite <- Hkept. apply List.Forall_forall. intros d Hd.
      apply in_map_iff in Hd as (c & <- & Hc).
      rewrite List.Forall_forall in Hrange. apply Hrange. rewrite Hsnd.
      apply in_map_iff. eauto.
    + apply List.Exists_exists. exists (look cmin). split; [|exact Ecmin].
      rewrite <- Hkept. now apply in_map.
    + apply List.Exists_exists. exists (look cmax). split; [|exact Ecmax].
      rewrite <- Hkept. now apply in_map.
    + exact Hm.
Qed.

Lemma scorecard_counts_witness :
  let positive := List.filter positive_ppm (map (deref sample_heap) sample_db) in
  exists sc,
    scorecard (deref sample_heap) sample_db = Ok sc /\
    total_constants sc = Z.of_nat (length sample_db) /\
    non_exact sc = Z.of_nat (length positive) /\
    (non_exact sc <= total_constants sc)%Z /\
    Zsum (map snd (sectors sc)) = total_constants sc /\
    Forall (fun kn => (1 <= snd kn)%Z /\
                      exists c, In c sample_db /\
                        dict_get "sector" (deref sample_heap c) = Some (fst kn))
      (sectors sc) /\
    StronglySorted (fun a b : pyval => key_eq b a = false) (map fst (sectors sc)) /\
    (positive = [] ->
     min_ppm sc = PInt 0 /\ max_ppm sc = PInt 0 /\ mean_ppm sc = PInt 0) /\
    (positive <> [] ->
     exists lo hi mean,
       as_number (min_ppm sc) = Ok lo /\ as_number (max_ppm sc) = Ok hi /\
       mean_ppm sc = PFloat mean /\
       0 < lo /\
       Forall (fun d => lo <= ppm_of d <= hi) positive /\
       Exists (fun d => dict_get "deviation_ppm" d = Some (min_ppm sc)) positive /\
       Exists (fun d => dict_get "deviation_ppm" d = Some (max_ppm sc)) positive /\
       lo - (1 # 20) <= mean <= hi + (1 # 20)).
Proof.
  apply (scorecard_counts (deref sample_heap) sample_db). repeat constructor.
Defined.

(** The scorecard of the four sample records. *)
Example scorecard_sample :
  scorecard (deref sample_heap) sample_db
  = Ok {| total_constants := 4; non_exact := 3;
          min_ppm := PFloat 121.9; max_ppm := PFloat 28806.6;
          mean_ppm := PFloat (SumRule.py_round ((121.9 + 28806.6 + 399.8) / 3) 1);
          sectors := [(PStr "core", 1%Z); (PStr "electroweak", 2%Z);
                      (PStr "cosmology", 1%Z)] |}.
Proof. vm_compute. reflexivity. Qed.

End ScorecardFacts.
